(** * Noise schedule, training loop and sampling loop of the diffusers notebook

    A shallow embedding of [notebook/01_introduction_to_diffusers.ipynb]:
    the training cell and the sampling cell are translated statement by
    statement into a state-and-error monad over the notebook's global state;
    the collaborators they call (the U-Net, autograd, AdamW and the
    scheduler object) are the fields of an interface.  The scheduler the
    notebook instantiates, [DDPMScheduler], lives in the [diffusers] package
    and not in this repository; its schedule, [add_noise] and [step] are
    modelled from the specification in module [DDPM].

    Floating-point tensors are idealised: a scalar is a real number. *)

From Stdlib Require Import String.
From Stdlib Require Import List ZArith Lia Arith Bool.
From Stdlib Require Import Reals Lra.
Import ListNotations.
Local Open Scope R_scope.

(* ================================================================== *)
(** ** Tensors *)

(** A tensor as torch stores it: a shape and the row-major flat storage. *)
Record Tensor : Type := mkTensor { shape : list nat; data : list R }.

Definition numel (sh : list nat) : nat := fold_right Nat.mul 1%nat sh.

(** Well-formed: the storage holds exactly [numel shape] scalars. *)
Definition wf (x : Tensor) : Prop := length (data x) = numel (shape x).

Definition same_shape (a b : list nat) : bool :=
  if list_eq_dec Nat.eq_dec a b then true else false.

Definition zeros (sh : list nat) : Tensor := mkTensor sh (repeat 0 (numel sh)).

Definition sum_list (l : list R) : R := fold_right Rplus 0 l.

(** Elementwise combination of two storages (the shorter one decides). *)
Fixpoint map2 {A B C : Type} (f : A -> B -> C) (l : list A) (l' : list B) : list C :=
  match l, l' with
  | a :: r, b :: r' => f a b :: map2 f r r'
  | _, _ => []
  end.

Fixpoint map3 {A B C D : Type} (f : A -> B -> C -> D)
    (l : list A) (l' : list B) (l'' : list C) : list D :=
  match l, l', l'' with
  | a :: r, b :: r', c :: r'' => f a b c :: map3 f r r' r''
  | _, _, _ => []
  end.

(* ================================================================== *)
(** ** Failures *)

(** The three error kinds of the specification, and [RuntimeError] for the
    failures of torch and Python themselves ([shape[0]] of a 0-dim tensor,
    [randint] over an empty range). *)
Inductive error : Type :=
  | InvalidConfiguration
  | OutOfRangeTimestep
  | ShapeMismatch
  | RuntimeError.

Inductive result (A : Type) : Type :=
  | Ok (a : A)
  | Err (e : error).
Arguments Ok {A} a.
Arguments Err {A} e.

(* ================================================================== *)
(** ** torch's global random generators *)

(** A generator is a seed-determined stream of draws together with the
    number of draws consumed so far.  A slot of the stream is read as a
    standard-normal variate by [randn] and as an unsigned word by
    [randint]. *)
Record Generator : Type := mkGenerator {
  normal : nat -> R;
  word : nat -> Z;
  offset : nat
}.

Definition advance (n : nat) (g : Generator) : Generator :=
  mkGenerator (normal g) (word g) (offset g + n).

(** [torch.randn(shape)]: one normal variate per element. *)
Definition randn (sh : list nat) (g : Generator) : Tensor * Generator :=
  (mkTensor sh (map (fun i => normal g (offset g + i)) (seq 0 (numel sh))),
   advance (numel sh) g).

(** [torch.randint(low, high, (n,))]: [n] integers, each a word of the
    stream reduced into [[low, high)]; torch raises when the range is
    empty. *)
Definition randint (low high : Z) (n : nat) (g : Generator)
  : result (list Z * Generator) :=
  if (low <? high)%Z
  then Ok (map (fun i => (low + word g (offset g + i) mod (high - low))%Z) (seq 0 n),
           advance n g)
  else Err RuntimeError.

(** torch keeps one default generator per device. *)
Inductive Device : Type := cpu | cuda.

(* ================================================================== *)
(** ** [F.mse_loss] *)

(** [F.mse_loss(input, target)] with the default reduction: the mean of the
    squared elementwise differences.  A prediction of another shape than
    the target is the spec's ShapeMismatch failure. *)
Definition mse_loss (input target : Tensor) : result R :=
  if same_shape (shape input) (shape target)
  then Ok (sum_list (map2 (fun p n => (p - n) * (p - n)) (data input) (data target))
           / INR (numel (shape input)))
  else Err ShapeMismatch.

(** What one reverse step returns ([DDPMSchedulerOutput]). *)
Record StepResult : Type := mkStepResult {
  prev_sample : Tensor;
  pred_original_sample : Tensor
}.

(** The timestep argument of the U-Net: a 0-dim tensor in the sampling
    loop, one timestep per batch item in the training loop. *)
Inductive TimestepArg : Type :=
  | Scalar (t : Z)
  | Batch (ts : list Z).

(* ================================================================== *)
(** ** The DDPM noise scheduler *)

Module DDPM.

(** Modelled from the spec: the construction arguments of the NoiseScheduler
    ([DDPMScheduler] of the diffusers package, whose code is not in the
    repository): a timestep count, a schedule selector and the two bounds of
    the linear variant. *)
Record Config : Type := mkConfig {
  cfg_num_train_timesteps : Z;
  cfg_beta_schedule : String.string;
  cfg_beta_start : R;
  cfg_beta_end : R
}.

(** Modelled from the spec: the precomputed schedule of the NoiseScheduler
    (code not in the repository): the arrays beta, alpha = 1 - beta and the
    cumulative product of alpha, one entry per timestep, and the full range
    of timesteps in descending order. *)
Record Scheduler : Type := mkScheduler {
  num_train_timesteps : Z;
  betas : list R;
  alphas : list R;
  alphas_cumprod : list R;
  timesteps : list Z
}.

(** The comparison of two reals as a boolean test. *)
Definition Rltb (x y : R) : bool := if Rlt_dec x y then true else false.

(** Modelled from the spec: the linear variant of the schedule (code not in
    the repository): [n] evenly spaced values from [a] to [b], as
    [torch.linspace(a, b, n)]. *)
Definition linspace (a b : R) (n : nat) : list R :=
  map (fun i => a + INR i * ((b - a) / INR (n - 1))) (seq 0 n).

(** Modelled from the spec: the cosine/squaredcos variant of the schedule
    (code not in the repository), after the rule the library applies for
    [squaredcos_cap_v2]: beta_i = min(1 - f((i+1)/n) / f(i/n), 0.999) with
    f(t) = cos((t + 0.008) / 1.008 * pi / 2) squared. *)
Definition alpha_bar_fn (t : R) : R :=
  Rsqr (cos ((t + 0.008) / 1.008 * PI / 2)).

(** Modelled from the spec: the beta array of the cosine/squaredcos variant
    (code not in the repository), from the rule above, capped at 0.999. *)
Definition betas_for_alpha_bar (n : nat) : list R :=
  map (fun i => Rmin (1 - alpha_bar_fn (INR (i + 1) / INR n) / alpha_bar_fn (INR i / INR n))
                     0.999)
      (seq 0 n).

(** Modelled from the spec: the cumulative product that derives alpha_bar
    from alpha (code not in the repository), as [torch.cumprod]: the running
    product, one output per input. *)
Fixpoint cumprod_from (acc : R) (l : list R) : list R :=
  match l with
  | [] => []
  | x :: r => (acc * x) :: cumprod_from (acc * x) r
  end.

(** Modelled from the spec: the cumulative product from the first entry on
    (code not in the repository). *)
Definition cumprod (l : list R) : list R := cumprod_from 1 l.

(** Modelled from the spec: which configurations the constructor accepts
    (code not in the repository): a positive timestep count, a known schedule
    variant and 0 < beta_start < beta_end < 1. *)
Definition known_schedule (name : String.string) : bool :=
  String.eqb name "linear"%string || String.eqb name "squaredcos_cap_v2"%string.

(** Modelled from the spec: the validation the constructor performs (code
    not in the repository); anything else is an InvalidConfiguration. *)
Definition valid_config (c : Config) : bool :=
  (0 <? cfg_num_train_timesteps c)%Z
  && known_schedule (cfg_beta_schedule c)
  && Rltb 0 (cfg_beta_start c)
  && Rltb (cfg_beta_start c) (cfg_beta_end c)
  && Rltb (cfg_beta_end c) 1.

(** Modelled from the spec: the beta array of the selected variant (code not
    in the repository). *)
Definition make_betas (c : Config) : list R :=
  let n := Z.to_nat (cfg_num_train_timesteps c) in
  if String.eqb (cfg_beta_schedule c) "linear"%string
  then linspace (cfg_beta_start c) (cfg_beta_end c) n
  else betas_for_alpha_bar n.

(** Modelled from the spec: the full range of timesteps in strictly
    descending order, T-1, T-2, ..., 0 (code not in the repository). *)
Definition descending (n : nat) : list Z := map Z.of_nat (rev (seq 0 n)).

(** Modelled from the spec: what the constructor of the NoiseScheduler
    precomputes (code not in the repository): the beta, alpha and
    cumulative-product arrays and the timestep range, once. *)
Definition precompute (c : Config) : Scheduler :=
  let bs := make_betas c in
  let als := map (fun b => 1 - b) bs in
  mkScheduler (cfg_num_train_timesteps c) bs als (cumprod als)
              (descending (Z.to_nat (cfg_num_train_timesteps c))).

(** Modelled from the spec: the constructor of the NoiseScheduler (code not
    in the repository): it validates the configuration, fails with
    InvalidConfiguration or returns the precomputed schedule. *)
Definition DDPMScheduler (c : Config) : result Scheduler :=
  if valid_config c then Ok (precompute c) else Err InvalidConfiguration.

(** Modelled from the spec: the reference configuration of the spec's test
    scenario (1000 timesteps, linear, 0.0001 to 0.02), which are the
    defaults behind the notebook's [DDPMScheduler(num_train_timesteps=1000)]
    (code not in the repository). *)
Definition default_config : Config := mkConfig 1000 "linear"%string 0.0001 0.02.

(** Modelled from the spec: the read-only lookup in a schedule array,
    indexed by timestep (code not in the repository). *)
Definition lookup (arr : list R) (t : Z) : R := nth (Z.to_nat t) arr 0.

(** Modelled from the spec: beta_t, alpha_t and alpha_bar_t of a scheduler
    (code not in the repository). *)
Definition beta (s : Scheduler) (t : Z) : R := lookup (betas s) t.

Definition alpha (s : Scheduler) (t : Z) : R := lookup (alphas s) t.

Definition alpha_bar (s : Scheduler) (t : Z) : R := lookup (alphas_cumprod s) t.

(** Modelled from the spec: alpha_bar_{t-1}, the cumulative product before
    timestep [t], defined as 1 before the first timestep (code not in the
    repository). *)
Definition alpha_bar_prev (s : Scheduler) (t : Z) : R :=
  if (t =? 0)%Z then 1 else alpha_bar s (t - 1).

(** Modelled from the spec: the timestep check of [add_noise] and [step]
    (code not in the repository): a timestep must lie in [0, T-1]. *)
Definition in_range (s : Scheduler) (t : Z) : bool :=
  (0 <=? t)%Z && (t <? num_train_timesteps s)%Z.

(** Modelled from the spec: the per-item timestep vector broadcast over the
    trailing dimensions (code not in the repository): every element of
    batch item [b] gets timestep [ts[b]]. *)
Definition broadcast (ts : list Z) (item_size : nat) : list Z :=
  flat_map (fun t => repeat t item_size) ts.

(** Modelled from the spec: [add_noise(clean, noise, timestep)] of the
    NoiseScheduler (code not in the repository):
    noisy = sqrt(alpha_bar_t) * clean + sqrt(1 - alpha_bar_t) * noise,
    elementwise, the timestep vector broadcast per batch item; an
    out-of-range timestep is an OutOfRangeTimestep failure. *)
Definition add_noise (s : Scheduler) (clean noise : Tensor) (ts : list Z)
  : result Tensor :=
  if negb (forallb (in_range s) ts) then Err OutOfRangeTimestep
  else match shape clean with
       | [] => Err ShapeMismatch
       | b :: rest =>
         if same_shape (shape noise) (shape clean) && (length ts =? b)%nat
         then Ok (mkTensor (shape clean)
                    (map3 (fun t x n => sqrt (alpha_bar s t) * x
                                        + sqrt (1 - alpha_bar s t) * n)
                          (broadcast ts (numel rest)) (data clean) (data noise)))
         else Err ShapeMismatch
       end.

(** Modelled from the spec: the estimate of the fully denoised sample,
    x0_hat = (sample - sqrt(1 - alpha_bar_t) * model_output) / sqrt(alpha_bar_t)
    (code not in the repository). *)
Definition predict_x0 (s : Scheduler) (t : Z) (model_output sample : list R) : list R :=
  map2 (fun x e => (x - sqrt (1 - alpha_bar s t) * e) / sqrt (alpha_bar s t))
       sample model_output.

(** Modelled from the spec: the posterior mean from beta_t, alpha_t,
    alpha_bar_t and alpha_bar_{t-1} (code not in the repository):
    sqrt(alpha_bar_{t-1}) * beta_t / (1 - alpha_bar_t) * x0_hat
    + sqrt(alpha_t) * (1 - alpha_bar_{t-1}) / (1 - alpha_bar_t) * sample. *)
Definition posterior_mean (s : Scheduler) (t : Z) (x0 sample : list R) : list R :=
  map2 (fun x0i xi =>
          sqrt (alpha_bar_prev s t) * beta s t / (1 - alpha_bar s t) * x0i
          + sqrt (alpha s t) * (1 - alpha_bar_prev s t) / (1 - alpha_bar s t) * xi)
       x0 sample.

(** Modelled from the spec: the posterior variance of the reverse step
    (code not in the repository):
    (1 - alpha_bar_{t-1}) / (1 - alpha_bar_t) * beta_t. *)
Definition posterior_variance (s : Scheduler) (t : Z) : R :=
  (1 - alpha_bar_prev s t) / (1 - alpha_bar s t) * beta s t.

(** Modelled from the spec: [step(model_output, timestep, sample)] of the
    NoiseScheduler (code not in the repository): the posterior mean, plus,
    except at timestep 0, fresh Gaussian noise from the generator scaled to
    the posterior variance (each standard-normal draw is multiplied by the
    square root of that variance); an out-of-range timestep is an
    OutOfRangeTimestep failure and a model output of another shape a
    ShapeMismatch.  The library's optional clipping of x0_hat is not part
    of the spec's step and is left out. *)
Definition step (s : Scheduler) (model_output : Tensor) (t : Z) (sample : Tensor)
    (g : Generator) : result (StepResult * Generator) :=
  if negb (in_range s t) then Err OutOfRangeTimestep
  else if negb (same_shape (shape model_output) (shape sample)) then Err ShapeMismatch
  else
    let x0 := predict_x0 s t (data model_output) (data sample) in
    let mean := posterior_mean s t x0 (data sample) in
    if (0 <? t)%Z
    then let (z, g') := randn (shape sample) g in
         Ok (mkStepResult
               (mkTensor (shape sample)
                  (map2 (fun m zi => m + sqrt (posterior_variance s t) * zi) mean (data z)))
               (mkTensor (shape sample) x0),
             g')
    else Ok (mkStepResult (mkTensor (shape sample) mean) (mkTensor (shape sample) x0), g).

End DDPM.

(* ================================================================== *)
(** ** The collaborators of the two loops *)

(** What the notebook's cells call and do not define: the U-Net
    ([UNet2DModel]) as a function of its flattened parameters, autograd's
    gradient of the training loss with respect to those parameters, the
    AdamW update, and the scheduler object with the two attributes and two
    methods the cells use. *)
Class Collaborators : Type := {
  model : list R -> Tensor -> TimestepArg -> Tensor;
  mse_grad : list R -> Tensor -> TimestepArg -> Tensor -> list R;
  OptState : Type;
  optimizer_step : OptState -> list R -> option (list R) -> OptState * list R;
  Scheduler : Type;
  num_train_timesteps : Scheduler -> Z;
  timesteps : Scheduler -> list Z;
  add_noise : Scheduler -> Tensor -> Tensor -> list Z -> result Tensor;
  step : Scheduler -> Tensor -> Z -> Tensor -> Generator
         -> result (StepResult * Generator)
}.

(** The training loss as a function of the parameters: what autograd
    differentiates ([mse_loss] of the model's prediction; 0 stands for a
    raised error). *)
Definition loss_of {C : Collaborators} (noisy : Tensor) (ts : TimestepArg)
    (target : Tensor) (theta : list R) : R :=
  match mse_loss (model theta noisy ts) target with
  | Ok l => l
  | Err _ => 0
  end.

(** Parameter vector [theta] with coordinate [i] replaced by [v]. *)
Fixpoint set_nth (i : nat) (v : R) (theta : list R) : list R :=
  match theta, i with
  | [], _ => []
  | _ :: r, O => v :: r
  | x :: r, S j => x :: set_nth j v r
  end.

(* ================================================================== *)
(** ** The notebook's global state *)

Record World {C : Collaborators} : Type := mkWorld {
  device : Device;               (* [device], fixed by the setup cell *)
  cpu_generator : Generator;     (* torch's default CPU generator *)
  cuda_generator : Generator;    (* torch's default CUDA generator *)
  params : list R;               (* [model.parameters()] *)
  grads : option (list R);       (* their [.grad]; [None] once zeroed *)
  optimizer : OptState;          (* [optimizer] *)
  noise_scheduler : Scheduler;   (* [noise_scheduler] *)
  losses : list R                (* [losses] *)
}.
Arguments mkWorld {C} _ _ _ _ _ _ _ _.

Section Monad.
Context {C : Collaborators}.

(** A cell's statement: it reads and updates the global state and either
    yields a value or raises; what it changed before raising stays
    changed. *)
Definition M (A : Type) : Type := World -> result A * World.

Definition ret {A : Type} (a : A) : M A := fun w => (Ok a, w).

Definition bind {A B : Type} (m : M A) (k : A -> M B) : M B :=
  fun w => match m w with
           | (Ok a, w') => k a w'
           | (Err e, w') => (Err e, w')
           end.

Definition lift {A : Type} (r : result A) : M A := fun w => (r, w).

Definition gets {A : Type} (f : World -> A) : M A := fun w => (Ok (f w), w).

Definition generator_of (d : Device) (w : World) : Generator :=
  match d with cpu => cpu_generator w | cuda => cuda_generator w end.

Definition with_generator (d : Device) (g : Generator) (w : World) : World :=
  match d with
  | cpu => mkWorld (device w) g (cuda_generator w) (params w) (grads w)
                   (optimizer w) (noise_scheduler w) (losses w)
  | cuda => mkWorld (device w) (cpu_generator w) g (params w) (grads w)
                    (optimizer w) (noise_scheduler w) (losses w)
  end.

Definition with_grads (gr : option (list R)) (w : World) : World :=
  mkWorld (device w) (cpu_generator w) (cuda_generator w) (params w) gr
          (optimizer w) (noise_scheduler w) (losses w).

Definition with_losses (l : list R) (w : World) : World :=
  mkWorld (device w) (cpu_generator w) (cuda_generator w) (params w) (grads w)
          (optimizer w) (noise_scheduler w) l.

Definition with_model (o : OptState) (theta : list R) (w : World) : World :=
  mkWorld (device w) (cpu_generator w) (cuda_generator w) theta (grads w)
          o (noise_scheduler w) (losses w).

End Monad.

Notation "x <- m ;; k" := (bind m (fun x => k))
  (at level 61, m at next level, right associativity).
Notation "m ;;; k" := (bind m (fun _ => k))
  (at level 61, right associativity).

Section Cells.
Context {C : Collaborators}.

(** [torch.randn(shape)]: drawn on the CPU, from the CPU generator (the
    notebook moves the result to [device] afterwards). *)
Definition torch_randn (sh : list nat) : M Tensor :=
  fun w => let (x, g) := randn sh (cpu_generator w) in
           (Ok x, with_generator cpu g w).

(** [torch.randint(low, high, (n,), device=device)]: drawn from the
    generator of [device]. *)
Definition torch_randint (low high : Z) (n : nat) : M (list Z) :=
  fun w => match randint low high n (generator_of (device w) w) with
           | Ok (ts, g) => (Ok ts, with_generator (device w) g w)
           | Err e => (Err e, w)
           end.

(** [x.shape[0]]: Python raises on a 0-dim tensor. *)
Definition shape0 (x : Tensor) : M nat :=
  lift (match shape x with [] => Err RuntimeError | b :: _ => Ok b end).

(** [loss.backward(gradient)]: every parameter's [.grad] accumulates
    [gradient] times the derivative of the loss. *)
Definition accumulate (old : option (list R)) (g : list R) : option (list R) :=
  match old with
  | None => Some g
  | Some o => Some (map2 Rplus o g)
  end.

Definition backward (gradient : R) (dloss : list R) : M unit :=
  fun w => (Ok tt, with_grads (accumulate (grads w) (map (Rmult gradient) dloss)) w).

(** [losses.append(loss.item())]. *)
Definition losses_append (l : R) : M unit :=
  fun w => (Ok tt, with_losses (losses w ++ [l]) w).

(** [optimizer.step()]: AdamW reads the gradients and updates its own state
    and the parameters. *)
Definition optimizer_step_cell : M unit :=
  fun w => let (o, theta) := optimizer_step (optimizer w) (params w) (grads w) in
           (Ok tt, with_model o theta w).

(** [optimizer.zero_grad()]. *)
Definition zero_grad : M unit :=
  fun w => (Ok tt, with_grads None w).

(** The body of the training loop, for one [batch["images"]]. *)
Definition train_step (clean_images : Tensor) : M unit :=
  noise <- torch_randn (shape clean_images) ;;
  bs <- shape0 clean_images ;;
  s <- gets noise_scheduler ;;
  timesteps <- torch_randint 0 (num_train_timesteps s) bs ;;
  noisy_images <- lift (add_noise s clean_images noise timesteps) ;;
  theta <- gets params ;;
  let noise_pred := model theta noisy_images (Batch timesteps) in
  loss <- lift (mse_loss noise_pred noise) ;;
  backward loss (mse_grad theta noisy_images (Batch timesteps) noise) ;;;
  losses_append loss ;;;
  optimizer_step_cell ;;;
  zero_grad.

(** [for step, batch in enumerate(train_dataloader)]: one epoch over the
    batches the dataloader yields. *)
Fixpoint train_epoch (batches : list Tensor) : M unit :=
  match batches with
  | [] => ret tt
  | batch :: rest => train_step batch ;;; train_epoch rest
  end.

(** [for epoch in range(...)]: the epochs, each with its batches (the
    progress line printed every fifth epoch is not state). *)
Fixpoint training_loop (epochs : list (list Tensor)) : M unit :=
  match epochs with
  | [] => ret tt
  | batches :: rest => train_epoch batches ;;; training_loop rest
  end.

(** [with torch.no_grad(): residual = model(sample, t).sample]: a forward
    pass that records nothing for autograd. *)
Definition no_grad_model (sample : Tensor) (t : Z) : M Tensor :=
  theta <- gets params ;;
  ret (model theta sample (Scalar t)).

(** [noise_scheduler.step(residual, t, sample).prev_sample]: the scheduler
    draws its noise on the device of [residual], which is [device]. *)
Definition scheduler_step (residual : Tensor) (t : Z) (sample : Tensor) : M Tensor :=
  fun w => match step (noise_scheduler w) residual t sample
                      (generator_of (device w) w) with
           | Ok (r, g) => (Ok (prev_sample r), with_generator (device w) g w)
           | Err e => (Err e, w)
           end.

(** [for i, t in enumerate(noise_scheduler.timesteps)]: the body of the
    sampling loop for each timestep of the list, in the list's order. *)
Fixpoint denoise (ts : list Z) (sample : Tensor) : M Tensor :=
  match ts with
  | [] => ret sample
  | t :: rest =>
      residual <- no_grad_model sample t ;;
      sample' <- scheduler_step residual t sample ;;
      denoise rest sample'
  end.

(** The sampling cell: eight random 3x32x32 images, then the loop. *)
Definition sampling_loop : M Tensor :=
  sample <- torch_randn [8; 3; 32; 32]%nat ;;
  s <- gets noise_scheduler ;;
  denoise (timesteps s) sample.

End Cells.

(* ================================================================== *)
(** ** Contracts of the collaborators and relations between states *)

Section Contracts.
Context {C : Collaborators}.

(** The model returns a prediction of the shape of its input. *)
Definition model_keeps_shape : Prop :=
  forall theta x ts, shape (model theta x ts) = shape x.

(** The scheduler's timestep list is its full range, descending. *)
Definition full_descending_range (s : Scheduler) : Prop :=
  timesteps s = DDPM.descending (Z.to_nat (num_train_timesteps s)).

(** [add_noise] accepts same-shaped tensors with one valid timestep per
    batch item and returns a tensor of the same shape. *)
Definition add_noise_contract (s : Scheduler) : Prop :=
  forall clean noise ts b rest,
    shape clean = b :: rest -> shape noise = shape clean -> length ts = b ->
    Forall (fun t => (0 <= t <= num_train_timesteps s - 1)%Z) ts ->
    exists noisy, add_noise s clean noise ts = Ok noisy /\ shape noisy = shape clean.

(** [step] accepts a valid timestep and a model output of the sample's
    shape and returns a sample of the same shape. *)
Definition step_contract (s : Scheduler) : Prop :=
  forall model_output t sample g,
    (0 <= t <= num_train_timesteps s - 1)%Z -> shape model_output = shape sample ->
    exists r g', step s model_output t sample g = Ok (r, g')
                 /\ shape (prev_sample r) = shape sample.

(** Autograd's contract: [mse_grad] holds, coordinate by coordinate, the
    partial derivative of the training loss with respect to the
    parameters. *)
Definition autograd_sound : Prop :=
  forall theta x ts target i, (i < length theta)%nat ->
    derivable_pt_lim (fun v => loss_of x ts target (set_nth i v theta))
                     (nth i theta 0) (nth i (mse_grad theta x ts target) 0).

(** Everything of the global state but the generators. *)
Definition same_but_generators (w w' : World) : Prop :=
  device w' = device w /\ params w' = params w /\ grads w' = grads w
  /\ optimizer w' = optimizer w /\ noise_scheduler w' = noise_scheduler w
  /\ losses w' = losses w.

(** Two states with the same random state: the same device, the same state
    of both generators, and the same scheduler. *)
Definition same_randomness (w1 w2 : World) : Prop :=
  device w1 = device w2 /\ cpu_generator w1 = cpu_generator w2
  /\ cuda_generator w1 = cuda_generator w2
  /\ noise_scheduler w1 = noise_scheduler w2.

(** The models of two states return the same outputs to the sampling
    loop. *)
Definition same_outputs (w1 w2 : World) : Prop :=
  forall x t, model (params w1) x (Scalar t) = model (params w2) x (Scalar t).

(** The state one training iteration leaves: both draws consumed, the
    loss appended, the optimizer and the parameters updated from the
    gradients that [backward] accumulated, the gradients zeroed. *)
Definition after_train_step (w : World) (clean_images : Tensor) (bs : nat)
    (timesteps : list Z) (noisy_images : Tensor) (loss : R) : World :=
  let noise := fst (randn (shape clean_images) (cpu_generator w)) in
  let w1 := with_generator cpu (advance (numel (shape clean_images)) (cpu_generator w)) w in
  let w2 := with_generator (device w) (advance bs (generator_of (device w) w1)) w1 in
  let seen := accumulate (grads w)
                (map (Rmult loss)
                     (mse_grad (params w) noisy_images (Batch timesteps) noise)) in
  mkWorld (device w) (cpu_generator w2) (cuda_generator w2)
          (snd (optimizer_step (optimizer w) (params w) seen))
          None
          (fst (optimizer_step (optimizer w) (params w) seen))
          (noise_scheduler w)
          (losses w ++ [loss]).

(** A statement keeps the scheduler object and the device, whether it
    returns or raises. *)
Definition keeps_scheduler {A : Type} (m : M A) : Prop :=
  forall w, noise_scheduler (snd (m w)) = noise_scheduler w
            /\ device (snd (m w)) = device w.

End Contracts.

(* ================================================================== *)
(** ** Notions the schedule's properties are stated with *)

(** A timestep the scheduler accepts. *)
Definition valid_timestep (s : DDPM.Scheduler) (t : Z) : Prop :=
  (0 <= t <= DDPM.num_train_timesteps s - 1)%Z.

(** The product of [f 0], ..., [f n]. *)
Fixpoint prod_to (f : nat -> R) (n : nat) : R :=
  match n with
  | O => f O
  | S k => prod_to f k * f (S k)
  end.

(** A fixed-point enclosure of the product of the fractions [f i / d],
    [i] = 0, ..., [n], in units of [1 / scale]: rounded down and rounded
    up at every factor. *)
Fixpoint zlow (f : nat -> Z) (d scale : Z) (n : nat) : Z :=
  match n with
  | O => (scale * f O / d)%Z
  | S k => (zlow f d scale k * f (S k) / d)%Z
  end.

Fixpoint zhigh (f : nat -> Z) (d scale : Z) (n : nat) : Z :=
  match n with
  | O => (scale * f O / d + 1)%Z
  | S k => (zhigh f d scale k * f (S k) / d + 1)%Z
  end.

(* ================================================================== *)
(** ** The rest of the training cell: the epochs and their report *)

(** [l[-n:]]: the last [n] entries; Python reads [-0] as [0], so [l[-0:]]
    is the whole list, and a slice longer than the list is the list. *)
Definition last_slice {A : Type} (n : nat) (l : list A) : list A :=
  if (n =? 0)%nat then l else skipn (length l - n) l.

(** [sum(losses[-len(train_dataloader):]) / len(train_dataloader)]: Python
    raises ZeroDivisionError when the dataloader is empty. *)
Definition loss_last_epoch (n_batches : nat) (losses : list R) : result R :=
  if (n_batches =? 0)%nat then Err RuntimeError
  else Ok (sum_list (last_slice n_batches losses) / INR n_batches).

Section Epochs.
Context {C : Collaborators}.

(** [for epoch in range(...)], from epoch number [epoch] on: the inner loop
    over the batches the dataloader yields in that epoch, then, when
    [(epoch + 1) % 5 == 0], the line printed with the epoch's number and
    [loss_last_epoch].  [out] holds the lines printed so far; they stay
    printed when a later statement raises. *)
Fixpoint training_epochs (n_batches : nat) (epoch : nat) (epochs : list (list Tensor))
    (out : list (nat * R)) (w : World) : result unit * list (nat * R) * World :=
  match epochs with
  | [] => (Ok tt, out, w)
  | batches :: rest =>
      match train_epoch batches w with
      | (Err e, w1) => (Err e, out, w1)
      | (Ok _, w1) =>
          if ((epoch + 1) mod 5 =? 0)%nat
          then match loss_last_epoch n_batches (losses w1) with
               | Err e => (Err e, out, w1)
               | Ok l => training_epochs n_batches (S epoch) rest
                                         (out ++ [((epoch + 1)%nat, l)]) w1
               end
          else training_epochs n_batches (S epoch) rest out w1
      end
  end.

(** The lines the loop prints over epochs [epoch], [epoch + 1], ... whose
    losses are the [chunks]: one line for every fifth epoch, with the mean
    of that epoch's losses. *)
Fixpoint reports (n_batches : nat) (epoch : nat) (chunks : list (list R))
  : list (nat * R) :=
  match chunks with
  | [] => []
  | chunk :: rest =>
      (if ((epoch + 1) mod 5 =? 0)%nat
       then [((epoch + 1)%nat, sum_list chunk / INR n_batches)]
       else [])
      ++ reports n_batches (S epoch) rest
  end.

End Epochs.

(* ================================================================== *)
(** ** The cell that simulates adding noise to a batch *)

(** [.long()]: a float becomes the integer next to it towards zero. *)
Definition long (x : R) : Z :=
  if Rle_dec 0 x then Int_part x else (- Int_part (- x))%Z.

Section NoiseSimulation.
Context {C : Collaborators}.



End NoiseSimulation.

(* ================================================================== *)
(** ** [show_images] and the tail of [preprocess] *)

(** A uint8 array of shape (height, width, channels), row-major: what
    [ToTensor] reads from a PIL image and what [Image.fromarray] wraps. *)
Record ByteImage : Type := mkByteImage {
  img_height : nat;
  img_width : nat;
  img_channels : nat;
  img_bytes : list Z
}.

(** An elementwise operation on a tensor. *)
Definition tensor_map (f : R -> R) (x : Tensor) : Tensor :=
  mkTensor (shape x) (map f (data x)).

(** [x.permute(1, 2, 0)] of a (C, H, W) tensor: the (H, W, C) tensor with
    the same elements; torch raises on a tensor that has not three
    dimensions. *)
Definition permute_1_2_0 (x : Tensor) : result Tensor :=
  match shape x with
  | [c; h; w] =>
      Ok (mkTensor [h; w; c]
            (map (fun k => nth ((k mod c) * (h * w) + (k / (w * c)) * w + (k / c) mod w)
                               (data x) 0)
                 (seq 0 (h * w * c))))
  | _ => Err RuntimeError
  end.

(** [v.clip(lo, hi)]. *)
Definition clip (lo hi v : R) : R := Rmin (Rmax v lo) hi.

(** [astype(np.uint8)] of a float: towards zero, then modulo 256. *)
Definition astype_uint8 (v : R) : Z := (long v mod 256)%Z.

(** [show_images(x)]: [x * 0.5 + 0.5], torchvision's [make_grid] (which
    lays the batch out as one (C, H, W) tensor and is a parameter here),
    [permute(1, 2, 0)], [clip(0, 1) * 255], [astype(np.uint8)]; the result
    is the array handed to [Image.fromarray]. *)
Definition show_images (torchvision_make_grid : Tensor -> Tensor) (x : Tensor)
  : result ByteImage :=
  let x := tensor_map (fun v => v * 0.5 + 0.5) x in
  let grid := torchvision_make_grid x in
  match permute_1_2_0 grid with
  | Err e => Err e
  | Ok permuted =>
      let grid_im := tensor_map (fun v => clip 0 1 v * 255) permuted in
      match shape grid_im with
      | [h; w; c] => Ok (mkByteImage h w c (map astype_uint8 (data grid_im)))
      | _ => Err RuntimeError
      end
  end.

(** [transforms.ToTensor()]: the (H, W, C) bytes of the image as a
    (C, H, W) tensor of floats, each byte divided by 255. *)
Definition to_tensor (im : ByteImage) : Tensor :=
  let h := img_height im in
  let w := img_width im in
  let c := img_channels im in
  mkTensor [c; h; w]
    (map (fun k => IZR (nth (((k / w) mod h) * (w * c) + (k mod w) * c + k / (h * w))
                            (img_bytes im) 0%Z) / 255)
         (seq 0 (c * h * w))).

(** [transforms.Normalize(mean, std)]: channel by channel, (v - mean) / std;
    the per-channel constants must be as many as the channels. *)
Definition normalize (mean std : list R) (x : Tensor) : result Tensor :=
  match shape x with
  | [c; h; w] =>
      if ((length mean =? c) && (length std =? c))%nat
      then Ok (mkTensor [c; h; w]
                 (map (fun k => (nth k (data x) 0 - nth (k / (h * w)) mean 0)
                                / nth (k / (h * w)) std 0)
                      (seq 0 (c * h * w))))
      else Err RuntimeError
  | _ => Err RuntimeError
  end.

(** The last two steps of [preprocess], after [Resize] and
    [RandomHorizontalFlip] have produced the 32x32 RGB image:
    [ToTensor()] and [Normalize((0.5, 0.5, 0.5), (0.5, 0.5, 0.5))]. *)
Definition preprocess_tail (im : ByteImage) : result Tensor :=
  normalize [0.5; 0.5; 0.5] [0.5; 0.5; 0.5] (to_tensor im).

(** A byte image whose array holds height * width * channels bytes. *)
Definition byte_image_wf (im : ByteImage) : Prop :=
  length (img_bytes im) = (img_height im * img_width im * img_channels im)%nat
  /\ Forall (fun b => (0 <= b <= 255)%Z) (img_bytes im).

(* ================================================================== *)
(** ** [make_grid]: PIL images in a line *)

(** A PIL image in mode RGB: its size and its pixels. *)
Record Picture : Type := mkPicture {
  pic_width : nat;
  pic_height : nat;
  pic_pixel : nat -> nat -> Z * Z * Z
}.

(** [Image.new("RGB", (width, height))]: all black. *)
Definition new_picture (width height : nat) : Picture :=
  mkPicture width height (fun _ _ => (0, 0, 0)%Z).

(** [out.paste(im, (x0, y0))]: the pixels of [im] replace those of [out]
    in the box with upper left corner (x0, y0), as far as the box lies in
    [out]. *)
Definition paste (out im : Picture) (x0 y0 : nat) : Picture :=
  mkPicture (pic_width out) (pic_height out)
    (fun x y =>
       if ((x0 <=? x) && (x <? x0 + pic_width im) && (x <? pic_width out)
           && (y0 <=? y) && (y <? y0 + pic_height im) && (y <? pic_height out))%nat
       then pic_pixel im (x - x0) (y - y0)
       else pic_pixel out x y).

(** [for i, im in enumerate(images): output_im.paste(im.resize((size,
    size)), (i * size, 0))], from index [i] on; PIL's [resize] is a
    parameter. *)
Fixpoint paste_all (resize : Picture -> nat -> nat -> Picture) (size : nat) (i : nat)
    (images : list Picture) (output_im : Picture) : Picture :=
  match images with
  | [] => output_im
  | im :: rest =>
      paste_all resize size (S i) rest
                (paste output_im (resize im size size) (i * size) 0)
  end.

(** [make_grid(images, size)]. *)
Definition make_grid (resize : Picture -> nat -> nat -> Picture)
    (images : list Picture) (size : nat) : Picture :=
  paste_all resize size 0 images (new_picture (size * length images) size).

(** [resize] returns a picture of the size asked for. *)
Definition resize_contract (resize : Picture -> nat -> nat -> Picture) : Prop :=
  forall im w h, pic_width (resize im w h) = w /\ pic_height (resize im w h) = h.

(* ================================================================== *)
(** ** A concrete setting on which the cells run *)

(** A one-parameter network that scales its input by its first parameter,
    with the gradient of its training loss and a plain gradient-descent
    optimizer; the scheduler is the DDPM scheduler above. *)
Definition scale_model (theta : list R) (x : Tensor) (ts : TimestepArg) : Tensor :=
  mkTensor (shape x) (map (Rmult (nth 0 theta 0)) (data x)).

Definition scale_model_grad (theta : list R) (x : Tensor) (ts : TimestepArg)
    (target : Tensor) : list R :=
  map (fun i =>
         if same_shape (shape x) (shape target) && (i =? 0)%nat
         then sum_list (map2 (fun xk nk => 2 * (nth 0 theta 0 * xk - nk) * xk)
                             (data x) (data target))
              / INR (numel (shape x))
         else 0)
      (seq 0 (length theta)).

Definition gradient_descent (lr : R) (o : unit) (theta : list R)
    (g : option (list R)) : unit * list R :=
  (o, match g with
      | None => theta
      | Some d => map2 (fun p di => p - lr * di) theta d
      end).

(** The notebook's setting for a given network and optimizer: the scheduler
    object is a DDPM scheduler. *)
Definition ddpm_setting (net : list R -> Tensor -> TimestepArg -> Tensor)
    (net_grad : list R -> Tensor -> TimestepArg -> Tensor -> list R)
    (O : Type) (opt : O -> list R -> option (list R) -> O * list R)
  : Collaborators := {|
  model := net;
  mse_grad := net_grad;
  OptState := O;
  optimizer_step := opt;
  Scheduler := DDPM.Scheduler;
  num_train_timesteps := DDPM.num_train_timesteps;
  timesteps := DDPM.timesteps;
  add_noise := DDPM.add_noise;
  step := DDPM.step
|}.

Definition demo_setting : Collaborators :=
  ddpm_setting scale_model scale_model_grad unit (gradient_descent 0.1).

Definition demo_config : DDPM.Config := DDPM.mkConfig 4 "linear"%string 0.1 0.2.

Definition demo_generator : Generator :=
  mkGenerator (fun i => INR i - 2) (fun i => Z.of_nat (7 * i + 3)) 0.

Definition demo_world : @World demo_setting :=
  @mkWorld demo_setting cpu demo_generator demo_generator [0.5] None tt
           (DDPM.precompute demo_config) [].

Definition demo_batch : Tensor := mkTensor [2; 2]%nat [1; -1; 0.5; 0].

Definition demo_noise : Tensor := mkTensor [2; 2]%nat [0.5; 0.25; -1; 2].

(** A network whose prediction is all zeros, whatever its parameters. *)
Definition zero_model (theta : list R) (x : Tensor) (ts : TimestepArg) : Tensor :=
  zeros (shape x).

Definition zero_setting : Collaborators :=
  ddpm_setting zero_model (fun theta _ _ _ => map (fun _ => 0) theta) unit
               (gradient_descent 0.1).

(** Two states of the zero network with the same random state and
    different parameters, gradients and loss logs. *)
Definition zero_world : @World zero_setting :=
  @mkWorld zero_setting cpu demo_generator demo_generator [0.5] None tt
           (DDPM.precompute demo_config) [].

Definition zero_world_later : @World zero_setting :=
  @mkWorld zero_setting cpu demo_generator demo_generator [2; -1] (Some [1; 1]) tt
           (DDPM.precompute demo_config) [0.25].




(** A (3, 1, 2) batch with values inside and outside of (-1, 1). *)
Definition demo_grid : Tensor := mkTensor [3; 1; 2]%nat [-1; 1; 0; 0.5; 3; -7].

(** An RGB image of one row and two columns. *)
Definition demo_image : ByteImage :=
  mkByteImage 1 2 3 [0; 255; 128; 17; 64; 200]%Z.

(** Nearest-neighbour resampling, for [resize]. *)
Definition nearest_resize (im : Picture) (w h : nat) : Picture :=
  mkPicture w h (fun x y => pic_pixel im (x * pic_width im / w) (y * pic_height im / h)).

Definition demo_pictures : list Picture :=
  [ mkPicture 1 1 (fun _ _ => (255, 0, 0)%Z);
    mkPicture 4 4 (fun x y => (Z.of_nat x, Z.of_nat y, 7)%Z) ].

(* ================================================================== *)
(** * Properties *)

(** ** Lists, shapes and generators *)

Lemma same_shape_true (a b : list nat) : same_shape a b = true <-> a = b.
Proof.
  unfold same_shape. destruct (list_eq_dec Nat.eq_dec a b); split; congruence.
Qed.

Lemma same_shape_refl (a : list nat) : same_shape a a = true.
Proof. now apply same_shape_true. Qed.

Lemma map2_length {A B C : Type} (f : A -> B -> C) (l : list A) (l' : list B) :
  length (map2 f l l') = Nat.min (length l) (length l').
Proof.
  revert l'. induction l as [|a l IH]; intros [|b l']; simpl; auto.
Qed.

Lemma map2_nth {A B C : Type} (f : A -> B -> C) (l : list A) (l' : list B)
    (i : nat) (da : A) (db : B) (dc : C) :
  (i < length l)%nat -> (i < length l')%nat ->
  nth i (map2 f l l') dc = f (nth i l da) (nth i l' db).
Proof.
  revert l' i. induction l as [|a l IH]; intros [|b l'] [|i]; simpl; intros; try lia; auto.
  apply IH; lia.
Qed.

Lemma map3_length {A B C D : Type} (f : A -> B -> C -> D)
    (l : list A) (l' : list B) (l'' : list C) :
  length (map3 f l l' l'') = Nat.min (length l) (Nat.min (length l') (length l'')).
Proof.
  revert l' l''. induction l as [|a l IH]; intros [|b l'] [|c l'']; simpl; auto.
Qed.

Lemma map3_nth {A B C D : Type} (f : A -> B -> C -> D)
    (l : list A) (l' : list B) (l'' : list C) (i : nat) (da : A) (db : B) (dc : C) (dd : D) :
  (i < length l)%nat -> (i < length l')%nat -> (i < length l'')%nat ->
  nth i (map3 f l l' l'') dd = f (nth i l da) (nth i l' db) (nth i l'' dc).
Proof.
  revert l' l'' i.
  induction l as [|a l IH]; intros [|b l'] [|c l''] [|i]; simpl; intros; try lia; auto.
  apply IH; lia.
Qed.

Lemma randn_shape (sh : list nat) (g : Generator) : shape (fst (randn sh g)) = sh.
Proof. reflexivity. Qed.

Lemma randn_wf (sh : list nat) (g : Generator) : wf (fst (randn sh g)).
Proof. unfold wf, randn; simpl. now rewrite length_map, length_seq. Qed.

Lemma randn_generator (sh : list nat) (g : Generator) :
  snd (randn sh g) = advance (numel sh) g.
Proof. reflexivity. Qed.

(** [randint] over a non-empty range returns [n] integers of the range and
    consumes [n] draws. *)
Lemma randint_ok (low high : Z) (n : nat) (g : Generator) :
  (low < high)%Z ->
  exists ts, randint low high n g = Ok (ts, advance n g)
             /\ length ts = n
             /\ Forall (fun t => (low <= t <= high - 1)%Z) ts.
Proof.
  intros H. unfold randint.
  destruct (Z.ltb_spec low high) as [_|]; [|lia].
  eexists; split; [reflexivity|]. split.
  - now rewrite length_map, length_seq.
  - apply Forall_forall. intros t Ht. apply in_map_iff in Ht as [i [<- _]].
    pose proof (Z.mod_pos_bound (word g (offset g + i)) (high - low)). lia.
Qed.

Lemma advance_offset (n : nat) (g : Generator) : offset (advance n g) = (offset g + n)%nat.
Proof. reflexivity. Qed.

Lemma advance_changes (n : nat) (g : Generator) : (0 < n)%nat -> advance n g <> g.
Proof.
  intros H E. apply (f_equal offset) in E. simpl in E. lia.
Qed.

Lemma nth_map_seq {A : Type} (f : nat -> A) (n i : nat) (d : A) :
  (i < n)%nat -> nth i (map f (seq 0 n)) d = f i.
Proof.
  intros H.
  rewrite (nth_indep _ d (f 0%nat)) by (rewrite length_map, length_seq; exact H).
  rewrite (map_nth f (seq 0 n) 0%nat i), seq_nth by exact H. reflexivity.
Qed.

(** Timestep [i] of a [randint] draw is read from slot [i] of the stream
    after the offset, reduced into the range. *)
Lemma randint_slots (low high : Z) (n : nat) (g : Generator) (ts : list Z) (g' : Generator) :
  randint low high n g = Ok (ts, g') ->
  forall i, (i < n)%nat ->
    nth i ts 0%Z = (low + word g (offset g + i) mod (high - low))%Z.
Proof.
  unfold randint. destruct (low <? high)%Z; intros H; inversion H; subst.
  intros i Hi.
  now rewrite (nth_map_seq (fun i => (low + word g (offset g + i) mod (high - low))%Z)).
Qed.

(** *** The reduction of [randint] is uniform

    Over [k] full periods of words, every value of the range is hit by
    exactly [k] words. *)

Lemma count_eq_seq_none (t a n : nat) :
  (t < a)%nat -> length (filter (fun j => j =? t)%nat (seq a n)) = 0%nat.
Proof.
  revert a. induction n as [|n IH]; intros a Ht; simpl; auto.
  destruct (Nat.eqb_spec a t); [lia|]. apply IH. lia.
Qed.

Lemma count_eq_seq (t a n : nat) :
  (a <= t < a + n)%nat -> length (filter (fun j => j =? t)%nat (seq a n)) = 1%nat.
Proof.
  revert a. induction n as [|n IH]; intros a Ht; simpl; [lia|].
  destruct (Nat.eqb_spec a t) as [->|Hne]; simpl.
  - rewrite count_eq_seq_none by lia. reflexivity.
  - apply IH. lia.
Qed.

Lemma seq_from (b n : nat) : seq b n = map (fun j => b + j)%nat (seq 0 n).
Proof.
  revert b. induction n as [|n IH]; intros b; simpl; auto.
  f_equal; [lia|]. rewrite <- seq_shift, IH, <- seq_shift, !map_map.
  apply map_ext. intros; lia.
Qed.

Lemma count_residue_block (T t a : nat) :
  (t < T)%nat ->
  length (filter (fun j => j mod T =? t)%nat (seq (a * T) T)) = 1%nat.
Proof.
  intros Ht. rewrite seq_from.
  assert (F : forall (l : list nat),
             (forall j, In j l -> j < T)%nat ->
             length (filter (fun j => j mod T =? t)%nat (map (fun j => a * T + j)%nat l))
             = length (filter (fun j => j =? t)%nat l)).
  { induction l as [|j l IH]; intros Hl; simpl; auto.
    assert (Hj : (j < T)%nat) by (apply Hl; now left).
    replace ((a * T + j) mod T)%nat with j
      by (rewrite Nat.add_comm, Nat.Div0.mod_add, Nat.mod_small; auto).
    destruct (j =? t)%nat; simpl; rewrite IH; auto; intros; apply Hl; now right. }
  rewrite F by (intros j Hj; apply in_seq in Hj; lia).
  apply count_eq_seq. lia.
Qed.

Lemma count_residue (T t k : nat) :
  (t < T)%nat ->
  length (filter (fun j => j mod T =? t)%nat (seq 0 (k * T))) = k.
Proof.
  intros Ht. induction k as [|k IH]; simpl; auto.
  rewrite Nat.add_comm, seq_app, filter_app, length_app, IH. simpl.
  rewrite (count_residue_block T t k Ht). lia.
Qed.

Lemma filter_map_length {A B : Type} (p : B -> bool) (f : A -> B) (l : list A) :
  length (filter p (map f l)) = length (filter (fun a => p (f a)) l).
Proof.
  induction l as [|a l IH]; simpl; auto. destruct (p (f a)); simpl; auto.
Qed.

Lemma randint_reduction_uniform (low high t : Z) (k : nat) :
  (low <= t <= high - 1)%Z ->
  length (filter (fun v => (low + v mod (high - low) =? t)%Z)
                 (map Z.of_nat (seq 0 (k * Z.to_nat (high - low)))))
  = k.
Proof.
  intros Ht. rewrite filter_map_length.
  rewrite (filter_ext _ (fun j => j mod Z.to_nat (high - low) =? Z.to_nat (t - low))%nat).
  - apply count_residue. lia.
  - intros j.
    replace (high - low)%Z with (Z.of_nat (Z.to_nat (high - low))) at 1 by lia.
    rewrite <- Nat2Z.inj_mod.
    destruct (Nat.eqb_spec (j mod Z.to_nat (high - low)) (Z.to_nat (t - low))) as [E|E].
    + apply Z.eqb_eq. rewrite E. lia.
    + apply Z.eqb_neq. intros F. apply E. lia.
Qed.

(** ** The notebook's cells *)

Section CellProperties.
Context {C : Collaborators}.

(** *** The sampling loop *)

Lemma same_but_generators_refl (w : World) : same_but_generators w w.
Proof. repeat split. Qed.

Lemma same_but_generators_trans (w1 w2 w3 : World) :
  same_but_generators w1 w2 -> same_but_generators w2 w3 -> same_but_generators w1 w3.
Proof.
  unfold same_but_generators. intros (a & b & c & d & e & f) (a' & b' & c' & d' & e' & f').
  repeat split; congruence.
Qed.

Lemma with_generator_same (d : Device) (g : Generator) (w : World) :
  same_but_generators w (with_generator d g w).
Proof. destruct d; repeat split. Qed.

Lemma generator_of_with_generator (d : Device) (g : Generator) (w : World) :
  generator_of d (with_generator d g w) = g.
Proof. destruct d; reflexivity. Qed.

Lemma with_generator_twice (d : Device) (g g' : Generator) (w : World) :
  with_generator d g' (with_generator d g w) = with_generator d g' w.
Proof. destruct d; reflexivity. Qed.

Lemma torch_randn_run (sh : list nat) (w : World) :
  torch_randn sh w
  = (Ok (fst (randn sh (cpu_generator w))),
     with_generator cpu (advance (numel sh) (cpu_generator w)) w).
Proof. reflexivity. Qed.

(** One body of the sampling loop changes the generators only. *)
Lemma scheduler_step_frame (residual : Tensor) (t : Z) (sample : Tensor) (w : World) :
  same_but_generators w (snd (scheduler_step residual t sample w)).
Proof.
  unfold scheduler_step.
  destruct (step _ _ _ _ _) as [[r g]|e]; simpl.
  - apply with_generator_same.
  - apply same_but_generators_refl.
Qed.

Lemma denoise_frame (ts : list Z) (sample : Tensor) (w : World) :
  same_but_generators w (snd (denoise ts sample w)).
Proof.
  revert sample w. induction ts as [|t ts IH]; intros sample w; simpl.
  - apply same_but_generators_refl.
  - unfold bind at 1. unfold no_grad_model, bind, gets, ret; simpl.
    pose proof (scheduler_step_frame (model (params w) sample (Scalar t)) t sample w) as F.
    destruct (scheduler_step _ t sample w) as [[x|e] w1]; simpl in *.
    + eapply same_but_generators_trans; [exact F | apply IH].
    + exact F.
Qed.

Lemma sampling_loop_frame_generators (w : World) :
  same_but_generators w (snd (sampling_loop w)).
Proof.
  unfold sampling_loop, bind. rewrite torch_randn_run. unfold gets.
  eapply same_but_generators_trans; [apply with_generator_same | apply denoise_frame].
Qed.

Lemma with_generator_id (d : Device) (w : World) :
  with_generator d (generator_of d w) w = w.
Proof. destruct w, d; reflexivity. Qed.

(** The sampling loop over any list of valid timesteps runs to completion:
    iteration [i] takes the [i]-th timestep of the list, asks the model for
    its prediction on the current sample and replaces the sample by what
    [step] returns, drawing from the generator the previous iteration
    left. *)
Lemma denoise_chain (s : Scheduler) (ts : list Z) :
  model_keeps_shape -> step_contract s ->
  Forall (fun t => (0 <= t <= num_train_timesteps s - 1)%Z) ts ->
  forall (x0 : Tensor) (w : World), noise_scheduler w = s ->
  exists (x : nat -> Tensor) (g : nat -> Generator),
    x 0%nat = x0 /\ g 0%nat = generator_of (device w) w
    /\ (forall i, (i < length ts)%nat ->
          exists r,
            step s (model (params w) (x i) (Scalar (nth i ts 0%Z))) (nth i ts 0%Z)
                 (x i) (g i) = Ok (r, g (S i))
            /\ x (S i) = prev_sample r /\ shape (x (S i)) = shape x0)
    /\ denoise ts x0 w
       = (Ok (x (length ts)), with_generator (device w) (g (length ts)) w).
Proof.
  intros HM HS. induction ts as [|t ts IH]; intros HR x0 w Hs.
  - exists (fun _ => x0), (fun _ => generator_of (device w) w).
    repeat split; simpl; try (intros; lia).
    unfold ret. now rewrite with_generator_id.
  - inversion HR as [|? ? Ht HR']; subst.
    destruct (HS (model (params w) x0 (Scalar t)) t x0 (generator_of (device w) w) Ht (HM _ _ _))
      as (r & g1 & Hstep & Hshape).
    set (w1 := with_generator (device w) g1 w).
    assert (F : same_but_generators w w1) by apply with_generator_same.
    destruct F as (Fd & Fp & _ & _ & Fs & _).
    destruct (IH HR' (prev_sample r) w1 Fs) as (x & g & Hx0 & Hg0 & Hi & Hrun).
    exists (fun i => match i with O => x0 | S j => x j end),
           (fun i => match i with O => generator_of (device w) w | S j => g j end).
    repeat split.
    + intros [|i] Hlt; simpl in *.
      * exists r. rewrite Hx0, Hg0, Fd. unfold w1.
        rewrite generator_of_with_generator. auto.
      * destruct (Hi i ltac:(lia)) as (r' & H1 & H2 & H3).
        exists r'. rewrite Fp in H1. repeat split; auto. congruence.
    + simpl. unfold bind at 1. unfold no_grad_model, bind, gets, ret; simpl.
      unfold scheduler_step. rewrite Hstep. fold w1. rewrite Hrun.
      rewrite Fd. unfold w1. now rewrite with_generator_twice.
Qed.

Lemma descending_length (n : nat) : length (DDPM.descending n) = n.
Proof. unfold DDPM.descending. now rewrite length_map, length_rev, length_seq. Qed.

Lemma descending_nth (n i : nat) :
  (i < n)%nat -> nth i (DDPM.descending n) 0%Z = Z.of_nat (n - 1 - i).
Proof.
  intros H. unfold DDPM.descending.
  change 0%Z with (Z.of_nat 0). rewrite map_nth. f_equal.
  rewrite rev_nth by (rewrite length_seq; lia).
  rewrite length_seq, seq_nth by lia. lia.
Qed.

Lemma descending_in_range (n : nat) (T : Z) :
  Z.of_nat n = T ->
  Forall (fun t => (0 <= t <= T - 1)%Z) (DDPM.descending n).
Proof.
  intros <-. apply Forall_forall. intros t Ht. unfold DDPM.descending in Ht.
  apply in_map_iff in Ht as (k & <- & Hk). apply in_rev, in_seq in Hk. lia.
Qed.

Lemma with_generator_same_randomness (d : Device) (g : Generator) (w1 w2 : World) :
  same_randomness w1 w2 ->
  same_randomness (with_generator d g w1) (with_generator d g w2).
Proof.
  intros (a & b & c & e). destruct d; repeat split; simpl; auto.
Qed.

Lemma generator_of_same_randomness (w1 w2 : World) :
  same_randomness w1 w2 ->
  generator_of (device w1) w1 = generator_of (device w2) w2.
Proof.
  intros (a & b & c & e). rewrite <- a. destruct (device w1); simpl; auto.
Qed.

Lemma same_outputs_with_generator (d d' : Device) (g g' : Generator) (w1 w2 : World) :
  same_outputs w1 w2 ->
  same_outputs (with_generator d g w1) (with_generator d' g' w2).
Proof. unfold same_outputs. destruct d, d'; simpl; auto. Qed.

Lemma denoise_deterministic (ts : list Z) (sample : Tensor) (w1 w2 : World) :
  same_randomness w1 w2 -> same_outputs w1 w2 ->
  fst (denoise ts sample w1) = fst (denoise ts sample w2)
  /\ same_randomness (snd (denoise ts sample w1)) (snd (denoise ts sample w2)).
Proof.
  revert sample w1 w2. induction ts as [|t ts IH]; intros sample w1 w2 HR HO; simpl.
  - split; auto.
  - unfold bind at 1 3 4 6. unfold no_grad_model, bind, gets, ret; simpl.
    unfold scheduler_step.
    rewrite (HO sample t).
    rewrite (generator_of_same_randomness _ _ HR).
    destruct HR as (Hd & Hc & Hg & Hs). rewrite Hs.
    destruct (step _ _ _ _ _) as [[r g]|e]; simpl.
    + rewrite Hd. apply IH.
      * apply with_generator_same_randomness. repeat split; auto.
      * now apply same_outputs_with_generator.
    + repeat split; auto.
Qed.

Lemma sampling_loop_deterministic (w1 w2 : World) :
  same_randomness w1 w2 -> same_outputs w1 w2 ->
  fst (sampling_loop w1) = fst (sampling_loop w2)
  /\ same_randomness (snd (sampling_loop w1)) (snd (sampling_loop w2)).
Proof.
  intros HR HO. unfold sampling_loop, bind. rewrite !torch_randn_run. unfold gets.
  destruct HR as (Hd & Hc & Hg & Hs).
  replace (noise_scheduler (with_generator cpu (advance (numel [8; 3; 32; 32]%nat) (cpu_generator w1)) w1))
    with (noise_scheduler (with_generator cpu (advance (numel [8; 3; 32; 32]%nat) (cpu_generator w2)) w2))
    by (simpl; auto).
  rewrite Hc.
  apply denoise_deterministic.
  - apply with_generator_same_randomness. repeat split; auto.
  - now apply same_outputs_with_generator.
Qed.

(** ** The training loop *)

(** One training iteration on a batch with a batch dimension runs to
    completion, and does what its statements say in their order. *)
Lemma train_step_run (w : World) (clean_images : Tensor) (bs : nat) (rest : list nat) :
  shape clean_images = bs :: rest ->
  (0 < num_train_timesteps (noise_scheduler w))%Z ->
  model_keeps_shape -> add_noise_contract (noise_scheduler w) ->
  let noise := fst (randn (shape clean_images) (cpu_generator w)) in
  let w1 := with_generator cpu (advance (numel (shape clean_images)) (cpu_generator w)) w in
  exists timesteps noisy_images loss,
    randint 0 (num_train_timesteps (noise_scheduler w)) bs (generator_of (device w) w1)
    = Ok (timesteps, advance bs (generator_of (device w) w1))
    /\ length timesteps = bs
    /\ Forall (fun t => (0 <= t <= num_train_timesteps (noise_scheduler w) - 1)%Z) timesteps
    /\ add_noise (noise_scheduler w) clean_images noise timesteps = Ok noisy_images
    /\ shape noisy_images = shape clean_images
    /\ mse_loss (model (params w) noisy_images (Batch timesteps)) noise = Ok loss
    /\ train_step clean_images w
       = (Ok tt, after_train_step w clean_images bs timesteps noisy_images loss).
Proof.
  intros Hsh HT HM HA noise w1.
  assert (F : same_but_generators w w1) by apply with_generator_same.
  destruct F as (Fd & Fp & Fg & Fo & Fs & Fl).
  destruct (randint_ok 0 (num_train_timesteps (noise_scheduler w)) bs
              (generator_of (device w) w1) HT) as (ts & Hts & Hlen & Hrange).
  destruct (HA clean_images noise ts bs rest Hsh (randn_shape _ _) Hlen Hrange)
    as (noisy & Hnoisy & Hnsh).
  assert (Hloss : exists loss, mse_loss (model (params w) noisy (Batch ts)) noise = Ok loss).
  { unfold mse_loss. rewrite HM, Hnsh. unfold noise. rewrite randn_shape.
    rewrite same_shape_refl. eauto. }
  destruct Hloss as (loss & Hloss).
  exists ts, noisy, loss. repeat split; auto.
  unfold train_step, bind. rewrite torch_randn_run. fold w1. fold noise.
  unfold shape0, lift. rewrite Hsh. unfold gets.
  unfold torch_randint. rewrite Fd, Fs, Hts, Hnoisy.
  set (w2 := with_generator (device w) (advance bs (generator_of (device w) w1)) w1).
  assert (F2 : same_but_generators w1 w2) by apply with_generator_same.
  destruct F2 as (Gd & Gp & Gg & Go & Gs & Gl).
  rewrite Gp, Fp, Hloss.
  unfold backward, losses_append, optimizer_step_cell, zero_grad, after_train_step.
  fold w1. fold w2. fold noise. simpl.
  rewrite Gg, Fg, Gp, Fp, Go, Fo.
  destruct (optimizer_step _ _ _) as [o theta]. simpl.
  unfold with_grads, with_model, with_losses; simpl.
  now rewrite Gd, Fd, Gs, Fs, Gl, Fl.
Qed.

(** An epoch over batches that all have a batch dimension runs to
    completion and logs one loss per batch. *)
Lemma train_epoch_run (batches : list Tensor) (w : World) :
  Forall (fun b => exists bs rest, shape b = bs :: rest) batches ->
  (0 < num_train_timesteps (noise_scheduler w))%Z ->
  model_keeps_shape -> add_noise_contract (noise_scheduler w) ->
  exists w', train_epoch batches w = (Ok tt, w')
             /\ length (losses w') = (length (losses w) + length batches)%nat
             /\ noise_scheduler w' = noise_scheduler w.
Proof.
  intros HB HT HM. revert w HT.
  induction HB as [|b batches (bs & rest & Hsh) _ IH]; intros w HT HA.
  - exists w. simpl. repeat split. lia.
  - destruct (train_step_run w b bs rest Hsh HT HM HA)
      as (ts & noisy & loss & _ & _ & _ & _ & _ & _ & H7).
    set (w1 := after_train_step w b bs ts noisy loss) in *.
    assert (Hs : noise_scheduler w1 = noise_scheduler w) by reflexivity.
    assert (Hl : losses w1 = losses w ++ [loss]) by reflexivity.
    destruct (IH w1) as (w' & Hrun & Hlen & Hsched).
    + now rewrite Hs.
    + now rewrite Hs.
    + exists w'. simpl. unfold bind. rewrite H7. split; [exact Hrun|].
      split; [|congruence].
      rewrite Hlen, Hl, length_app. simpl. lia.
Qed.

(** The derivative of half the square of [f] is [f] times the derivative
    of [f]. *)
Lemma half_square_derivative (f : R -> R) (x d : R) :
  derivable_pt_lim f x d ->
  derivable_pt_lim (fun v => f v * f v / 2) x (f x * d).
Proof.
  intros H.
  pose proof (derivable_pt_lim_scal _ (/ 2) _ _ (derivable_pt_lim_mult f f x d d H H)) as D.
  unfold mult_real_fct, mult_fct in D.
  replace (f x * d) with (/ 2 * (d * f x + f x * d)) by field.
  intros eps Heps. destruct (D eps Heps) as (delta & Hd).
  exists delta. intros h Hh Hlt. specialize (Hd h Hh Hlt).
  replace ((f (x + h) * f (x + h) / 2 - f x * f x / 2) / h)
    with ((/ 2 * (f (x + h) * f (x + h)) - / 2 * (f x * f x)) / h) by (field; auto).
  exact Hd.
Qed.

Lemma set_nth_same (i : nat) (theta : list R) :
  set_nth i (nth i theta 0) theta = theta.
Proof.
  revert i. induction theta as [|a theta IH]; intros [|i]; simpl; auto.
  now rewrite IH.
Qed.

Lemma nth_scaled (c : R) (l : list R) (i : nat) :
  nth i (map (Rmult c) l) 0 = c * nth i l 0.
Proof.
  replace 0 with (c * 0) at 1 by ring. apply map_nth.
Qed.

(** C2: the list the sampling loop iterates over has exactly
    [T = num_train_timesteps] entries, strictly descending from T-1 to 0.
    Started from a standard-Gaussian sample [x 0], the loop performs exactly
    [T] reverse iterations; iteration [i] visits timestep [T - 1 - i] and
    replaces the sample [x i] by the [prev_sample] that [step] returns for
    the model's prediction on [x i] at that timestep; the loop's result is
    the sample after the [T]-th iteration. *)
Theorem sampling_loop_iterations (w : World) (T : nat) :
  num_train_timesteps (noise_scheduler w) = Z.of_nat T ->
  full_descending_range (noise_scheduler w) ->
  model_keeps_shape -> step_contract (noise_scheduler w) ->
  length (timesteps (noise_scheduler w)) = T
  /\ (forall i, (i < T)%nat ->
        nth i (timesteps (noise_scheduler w)) 0%Z = Z.of_nat (T - 1 - i))
  /\ (forall i, (S i < T)%nat ->
        (nth (S i) (timesteps (noise_scheduler w)) 0 < nth i (timesteps (noise_scheduler w)) 0)%Z)
  /\ exists (x : nat -> Tensor) (g : nat -> Generator),
    randn [8; 3; 32; 32]%nat (cpu_generator w)
    = (x 0%nat, advance (numel [8; 3; 32; 32]%nat) (cpu_generator w))
    /\ g 0%nat = generator_of (device w)
                   (with_generator cpu (advance (numel [8; 3; 32; 32]%nat) (cpu_generator w)) w)
    /\ (forall i, (i < T)%nat ->
          exists r,
            step (noise_scheduler w)
                 (model (params w) (x i) (Scalar (Z.of_nat (T - 1 - i))))
                 (Z.of_nat (T - 1 - i)) (x i) (g i)
            = Ok (r, g (S i))
            /\ x (S i) = prev_sample r)
    /\ fst (sampling_loop w) = Ok (x T)
    /\ shape (x T) = [8; 3; 32; 32]%nat.
Proof.
  intros HT Hts HM HS.
  set (w0 := with_generator cpu (advance (numel [8; 3; 32; 32]%nat) (cpu_generator w)) w).
  assert (F : same_but_generators w w0) by apply with_generator_same.
  destruct F as (Fd & Fp & _ & _ & Fs & _).
  assert (HR : Forall (fun t => (0 <= t <= num_train_timesteps (noise_scheduler w) - 1)%Z)
                      (timesteps (noise_scheduler w))).
  { rewrite Hts. apply descending_in_range. rewrite HT. now rewrite Nat2Z.id. }
  destruct (denoise_chain (noise_scheduler w) (timesteps (noise_scheduler w)) HM HS HR
              (fst (randn [8; 3; 32; 32]%nat (cpu_generator w))) w0 Fs)
    as (x & g & Hx0 & Hg0 & Hi & Hrun).
  assert (Hlen : length (timesteps (noise_scheduler w)) = T).
  { rewrite Hts, descending_length, HT. apply Nat2Z.id. }
  rewrite Hlen in Hi, Hrun.
  assert (Hnth : forall i, (i < T)%nat ->
                 nth i (timesteps (noise_scheduler w)) 0%Z = Z.of_nat (T - 1 - i)).
  { intros i Hlt. rewrite Hts, HT, Nat2Z.id. now apply descending_nth. }
  split; [exact Hlen|]. split; [exact Hnth|].
  split; [intros i Hlt; rewrite !Hnth by lia; lia|].
  exists x, g. repeat split.
  - rewrite Hx0. reflexivity.
  - rewrite Hg0, Fd. reflexivity.
  - intros i Hlt. destruct (Hi i Hlt) as (r & H1 & H2 & _).
    exists r. split; auto.
    rewrite Hts, HT, Nat2Z.id, descending_nth, Fp in H1 by exact Hlt. exact H1.
  - unfold sampling_loop, bind. rewrite torch_randn_run. unfold gets. fold w0.
    rewrite Fs, Hrun. reflexivity.
  - destruct T as [|T'].
    + now rewrite Hx0.
    + destruct (Hi T' ltac:(lia)) as (r & _ & _ & H3). exact H3.
Qed.

(** C7: two runs of the full sampling loop from the same random state (the
    same device and the same state of both generators) with the same
    scheduler and the same model outputs return the same result, sample for
    sample, and leave the generators in the same state; in particular two
    runs whose models return all-zero outputs agree, whatever their
    parameters, optimizer states and loss logs are. *)
Theorem sampling_loop_reproducible (w1 w2 : World) :
  same_randomness w1 w2 ->
  (same_outputs w1 w2
   \/ (forall x t, model (params w1) x (Scalar t) = zeros (shape x))
      /\ (forall x t, model (params w2) x (Scalar t) = zeros (shape x))) ->
  fst (sampling_loop w1) = fst (sampling_loop w2)
  /\ cpu_generator (snd (sampling_loop w1)) = cpu_generator (snd (sampling_loop w2))
  /\ cuda_generator (snd (sampling_loop w1)) = cuda_generator (snd (sampling_loop w2)).
Proof.
  intros HR HO.
  assert (HO' : same_outputs w1 w2).
  { destruct HO as [HO|[Z1 Z2]]; auto. intros x t. now rewrite Z1, Z2. }
  destruct (sampling_loop_deterministic w1 w2 HR HO') as (H1 & _ & H2 & H3 & _).
  auto.
Qed.

(** C10: running the full sampling loop, to completion or up to a failure,
    leaves the model's parameters and their gradients, the optimizer and
    the scheduler unchanged (and the loss log and the device): the loop
    calls the model's forward pass only, without autograd, and no
    optimizer. *)
Theorem sampling_loop_leaves_model (w : World) :
  params (snd (sampling_loop w)) = params w
  /\ grads (snd (sampling_loop w)) = grads w
  /\ optimizer (snd (sampling_loop w)) = optimizer w
  /\ noise_scheduler (snd (sampling_loop w)) = noise_scheduler w
  /\ losses (snd (sampling_loop w)) = losses w
  /\ device (snd (sampling_loop w)) = device w.
Proof.
  destruct (sampling_loop_frame_generators w) as (a & b & c & d & e & f).
  repeat split; assumption.
Qed.

Lemma after_train_step_generators (w : World) (clean_images : Tensor) (bs : nat)
    (ts : list Z) (noisy : Tensor) (loss : R) :
  match device w with
  | cpu =>
      cpu_generator (after_train_step w clean_images bs ts noisy loss)
      = advance bs (advance (numel (shape clean_images)) (cpu_generator w))
      /\ cuda_generator (after_train_step w clean_images bs ts noisy loss)
         = cuda_generator w
  | cuda =>
      cpu_generator (after_train_step w clean_images bs ts noisy loss)
      = advance (numel (shape clean_images)) (cpu_generator w)
      /\ cuda_generator (after_train_step w clean_images bs ts noisy loss)
         = advance bs (cuda_generator w)
  end.
Proof.
  unfold after_train_step. destruct (device w); simpl; auto.
Qed.

(** C3: a training iteration on a batch of clean samples draws Gaussian
    noise of the batch's shape; draws one timestep per sample with
    [randint] over [0, T), each from a slot of its own of the generator's
    stream and reduced modulo T, so that each lies in [0, T-1] and every
    value of that range is hit by equally many words; corrupts the batch
    with [add_noise] at those timesteps; asks the model for its prediction
    on the corrupted batch and those timesteps; and takes as loss the mean
    of the squared differences between the prediction and the noise it
    injected, which is the value it logs.  (The code draws the noise before
    the timesteps; that the words of the stream are uniform and independent
    is the generator's business.) *)
Theorem train_step_contract (w : World) (clean_images : Tensor) (bs : nat)
    (rest : list nat) :
  shape clean_images = bs :: rest ->
  (0 < num_train_timesteps (noise_scheduler w))%Z ->
  model_keeps_shape -> add_noise_contract (noise_scheduler w) ->
  exists (noise : Tensor) (g1 : Generator) (timesteps : list Z) (g2 : Generator)
         (noisy_images : Tensor) (loss : R) (w' : World),
    randn (shape clean_images) (cpu_generator w) = (noise, g1)
    /\ shape noise = shape clean_images
    /\ randint 0 (num_train_timesteps (noise_scheduler w)) bs
               (generator_of (device w) (with_generator cpu g1 w))
       = Ok (timesteps, g2)
    /\ length timesteps = bs
    /\ Forall (fun t => (0 <= t <= num_train_timesteps (noise_scheduler w) - 1)%Z) timesteps
    /\ (forall i, (i < bs)%nat ->
          nth i timesteps 0%Z
          = (word (generator_of (device w) (with_generator cpu g1 w))
                  (offset (generator_of (device w) (with_generator cpu g1 w)) + i)
             mod num_train_timesteps (noise_scheduler w))%Z)
    /\ (forall (t : Z) (k : nat),
          (0 <= t <= num_train_timesteps (noise_scheduler w) - 1)%Z ->
          length (filter (fun v => (v mod num_train_timesteps (noise_scheduler w) =? t)%Z)
                         (map Z.of_nat
                              (seq 0 (k * Z.to_nat (num_train_timesteps (noise_scheduler w))))))
          = k)
    /\ add_noise (noise_scheduler w) clean_images noise timesteps = Ok noisy_images
    /\ mse_loss (model (params w) noisy_images (Batch timesteps)) noise = Ok loss
    /\ loss = sum_list (map2 (fun p n => (p - n) * (p - n))
                             (data (model (params w) noisy_images (Batch timesteps)))
                             (data noise))
              / INR (numel (shape clean_images))
    /\ train_step clean_images w = (Ok tt, w')
    /\ losses w' = losses w ++ [loss].
Proof.
  intros Hsh HT HM HA.
  destruct (train_step_run w clean_images bs rest Hsh HT HM HA)
    as (ts & noisy & loss & H1 & H2 & H3 & H4 & H5 & H6 & H7).
  eexists _, _, ts, _, noisy, loss, _.
  split; [reflexivity|]. split; [reflexivity|].
  split; [exact H1|]. split; [exact H2|]. split; [exact H3|].
  split.
  { intros i Hi. rewrite (randint_slots _ _ _ _ _ _ H1 i Hi).
    now rewrite Z.add_0_l, Z.sub_0_r. }
  split.
  { intros t k Ht.
    pose proof (randint_reduction_uniform 0 (num_train_timesteps (noise_scheduler w)) t k Ht)
      as U.
    rewrite Z.sub_0_r in U. exact U. }
  split; [exact H4|]. split; [exact H6|].
  split; [|split; [exact H7 | reflexivity]].
  unfold mse_loss in H6. rewrite HM, H5 in H6.
  change (shape (fst (randn (shape clean_images) (cpu_generator w)))) with (shape clean_images) in H6.
  rewrite same_shape_refl in H6. now inversion H6.
Qed.

(** C8, as the code has it: a training iteration appends exactly one
    value, its loss, to the loss log and leaves the scheduler and the
    device alone; besides the log and the model and optimizer it also
    advances torch's global generators: the CPU generator by one draw per
    element of the batch (the noise) and the generator of [device] by one
    draw per sample (the timesteps). *)
Theorem train_step_effects (w : World) (clean_images : Tensor) (bs : nat)
    (rest : list nat) :
  shape clean_images = bs :: rest ->
  (0 < num_train_timesteps (noise_scheduler w))%Z ->
  model_keeps_shape -> add_noise_contract (noise_scheduler w) ->
  exists (loss : R) (w' : World),
    train_step clean_images w = (Ok tt, w')
    /\ losses w' = losses w ++ [loss]
    /\ length (losses w') = S (length (losses w))
    /\ noise_scheduler w' = noise_scheduler w
    /\ device w' = device w
    /\ match device w with
       | cpu =>
           cpu_generator w'
           = advance bs (advance (numel (shape clean_images)) (cpu_generator w))
           /\ cuda_generator w' = cuda_generator w
       | cuda =>
           cpu_generator w' = advance (numel (shape clean_images)) (cpu_generator w)
           /\ cuda_generator w' = advance bs (cuda_generator w)
       end.
Proof.
  intros Hsh HT HM HA.
  destruct (train_step_run w clean_images bs rest Hsh HT HM HA)
    as (ts & noisy & loss & _ & _ & _ & _ & _ & _ & H7).
  exists loss, (after_train_step w clean_images bs ts noisy loss).
  split; [exact H7|]. split; [reflexivity|].
  split; [simpl; rewrite length_app; simpl; lia|].
  split; [reflexivity|]. split; [reflexivity|].
  apply after_train_step_generators.
Qed.

(** C9: in a training iteration that starts with zeroed gradients (as every
    iteration leaves them) [loss.backward(loss)] seeds the backward pass
    with the loss itself, so the gradients the optimizer steps on are the
    loss value times the gradient of the mean-squared-error loss: coordinate
    by coordinate, the derivative of one half of the squared loss, not of
    the loss. *)
Theorem backward_seeded_with_loss (w : World) (clean_images : Tensor) (bs : nat)
    (rest : list nat) :
  shape clean_images = bs :: rest ->
  (0 < num_train_timesteps (noise_scheduler w))%Z ->
  model_keeps_shape -> add_noise_contract (noise_scheduler w) ->
  autograd_sound ->
  grads w = None ->
  exists (noise noisy_images : Tensor) (timesteps : list Z) (loss : R) (w' : World),
    train_step clean_images w = (Ok tt, w')
    /\ noise = fst (randn (shape clean_images) (cpu_generator w))
    /\ add_noise (noise_scheduler w) clean_images noise timesteps = Ok noisy_images
    /\ mse_loss (model (params w) noisy_images (Batch timesteps)) noise = Ok loss
    /\ loss = loss_of noisy_images (Batch timesteps) noise (params w)
    /\ (optimizer w', params w')
       = optimizer_step (optimizer w) (params w)
           (Some (map (Rmult loss)
                      (mse_grad (params w) noisy_images (Batch timesteps) noise)))
    /\ (forall i, (i < length (params w))%nat ->
          nth i (map (Rmult loss)
                     (mse_grad (params w) noisy_images (Batch timesteps) noise)) 0
          = loss * nth i (mse_grad (params w) noisy_images (Batch timesteps) noise) 0
          /\ derivable_pt_lim
               (fun v => loss_of noisy_images (Batch timesteps) noise (set_nth i v (params w)))
               (nth i (params w) 0)
               (nth i (mse_grad (params w) noisy_images (Batch timesteps) noise) 0)
          /\ derivable_pt_lim
               (fun v =>
                  loss_of noisy_images (Batch timesteps) noise (set_nth i v (params w))
                  * loss_of noisy_images (Batch timesteps) noise (set_nth i v (params w))
                  / 2)
               (nth i (params w) 0)
               (nth i (map (Rmult loss)
                           (mse_grad (params w) noisy_images (Batch timesteps) noise)) 0))
    /\ grads w' = None.
Proof.
  intros Hsh HT HM HA HG Hz.
  destruct (train_step_run w clean_images bs rest Hsh HT HM HA)
    as (ts & noisy & loss & _ & _ & _ & H4 & _ & H6 & H7).
  exists (fst (randn (shape clean_images) (cpu_generator w))), noisy, ts, loss,
         (after_train_step w clean_images bs ts noisy loss).
  assert (HL : loss = loss_of noisy (Batch ts)
                        (fst (randn (shape clean_images) (cpu_generator w))) (params w)).
  { unfold loss_of. now rewrite H6. }
  split; [exact H7|]. split; [reflexivity|]. split; [exact H4|].
  split; [exact H6|]. split; [exact HL|].
  split.
  { unfold after_train_step. simpl. rewrite Hz. simpl.
    now destruct (optimizer_step _ _ _). }
  split; [|reflexivity].
  intros i Hi. split; [apply nth_scaled|]. split; [now apply HG|].
  rewrite nth_scaled.
  pose proof (half_square_derivative _ _ _
                (HG (params w) noisy (Batch ts)
                    (fst (randn (shape clean_images) (cpu_generator w))) i Hi)) as D.
  cbv beta in D. rewrite set_nth_same in D. rewrite <- HL in D. exact D.
Qed.

End CellProperties.

(* ================================================================== *)
(** ** The DDPM scheduler: [add_noise] and [step] *)

Section SchedulerOperations.
Variable s : DDPM.Scheduler.

Lemma in_range_valid (t : Z) : DDPM.in_range s t = true <-> valid_timestep s t.
Proof.
  unfold DDPM.in_range, valid_timestep.
  rewrite andb_true_iff, Z.leb_le, Z.ltb_lt. lia.
Qed.

Lemma forallb_in_range (ts : list Z) :
  forallb (DDPM.in_range s) ts = true <-> Forall (valid_timestep s) ts.
Proof.
  rewrite forallb_forall, Forall_forall.
  split; intros H t Ht; apply in_range_valid; auto.
Qed.

Lemma broadcast_length (ts : list Z) (n : nat) :
  length (DDPM.broadcast ts n) = (length ts * n)%nat.
Proof.
  unfold DDPM.broadcast. induction ts as [|t ts IH]; simpl; auto.
  now rewrite length_app, repeat_length, IH.
Qed.

(** Element [j] of batch item [i] carries the timestep of item [i]. *)
Lemma broadcast_nth (ts : list Z) (n i j : nat) :
  (i < length ts)%nat -> (j < n)%nat ->
  nth (i * n + j) (DDPM.broadcast ts n) 0%Z = nth i ts 0%Z.
Proof.
  unfold DDPM.broadcast. revert i. induction ts as [|t ts IH]; intros i Hi Hj; simpl in *.
  - lia.
  - destruct i as [|i]; simpl.
    + rewrite app_nth1 by (rewrite repeat_length; lia).
      apply nth_repeat_lt. exact Hj.
    + rewrite app_nth2 by (rewrite repeat_length; lia).
      rewrite repeat_length.
      replace (n + i * n + j - n)%nat with (i * n + j)%nat by lia.
      apply IH; lia.
Qed.

Lemma add_noise_run (clean noise : Tensor) (ts : list Z) (b : nat) (rest : list nat) :
  shape clean = b :: rest -> shape noise = shape clean -> length ts = b ->
  Forall (valid_timestep s) ts ->
  DDPM.add_noise s clean noise ts
  = Ok (mkTensor (shape clean)
          (map3 (fun t x n => sqrt (DDPM.alpha_bar s t) * x
                              + sqrt (1 - DDPM.alpha_bar s t) * n)
                (DDPM.broadcast ts (numel rest)) (data clean) (data noise))).
Proof.
  intros Hsh Hn Hlen Hts. unfold DDPM.add_noise.
  apply forallb_in_range in Hts. rewrite Hts. simpl.
  rewrite Hsh at 1. rewrite Hn, same_shape_refl, Hlen, Nat.eqb_refl. simpl.
  reflexivity.
Qed.

Lemma step_run (model_output sample : Tensor) (t : Z) (g : Generator) :
  valid_timestep s t -> shape model_output = shape sample ->
  let x0 := DDPM.predict_x0 s t (data model_output) (data sample) in
  let mean := DDPM.posterior_mean s t x0 (data sample) in
  DDPM.step s model_output t sample g
  = if (0 <? t)%Z
    then Ok (mkStepResult
               (mkTensor (shape sample)
                  (map2 (fun m z => m + sqrt (DDPM.posterior_variance s t) * z) mean
                        (data (fst (randn (shape sample) g)))))
               (mkTensor (shape sample) x0),
             advance (numel (shape sample)) g)
    else Ok (mkStepResult (mkTensor (shape sample) mean) (mkTensor (shape sample) x0), g).
Proof.
  intros Ht Hsh x0 mean. unfold DDPM.step.
  apply in_range_valid in Ht. rewrite Ht, Hsh, same_shape_refl. simpl.
  reflexivity.
Qed.

Lemma step_shape (model_output sample : Tensor) (t : Z) (g : Generator) :
  valid_timestep s t -> shape model_output = shape sample ->
  exists r g', DDPM.step s model_output t sample g = Ok (r, g')
               /\ shape (prev_sample r) = shape sample.
Proof.
  intros Ht Hsh. rewrite (step_run _ _ _ g Ht Hsh).
  destruct (0 <? t)%Z; eexists _, _; split; reflexivity.
Qed.

End SchedulerOperations.

(** C1: for a clean tensor with a batch dimension, a noise tensor of the
    same shape and one valid timestep per batch item, [add_noise] returns a
    tensor of exactly the shape of the clean input whose element [j] of
    batch item [i] is
    sqrt(alpha_bar_t) * clean + sqrt(1 - alpha_bar_t) * noise
    at that element, with [t] the timestep of item [i]. *)
Theorem add_noise_formula (s : DDPM.Scheduler) (clean noise : Tensor) (ts : list Z)
    (b : nat) (rest : list nat) :
  wf clean -> wf noise ->
  shape clean = b :: rest -> shape noise = shape clean ->
  length ts = b -> Forall (valid_timestep s) ts ->
  exists noisy,
    DDPM.add_noise s clean noise ts = Ok noisy
    /\ shape noisy = shape clean
    /\ wf noisy
    /\ forall i j, (i < b)%nat -> (j < numel rest)%nat ->
         nth (i * numel rest + j) (data noisy) 0
         = sqrt (DDPM.alpha_bar s (nth i ts 0%Z)) * nth (i * numel rest + j) (data clean) 0
           + sqrt (1 - DDPM.alpha_bar s (nth i ts 0%Z))
             * nth (i * numel rest + j) (data noise) 0.
Proof.
  intros Wc Wn Hsh Hn Hlen Hts.
  rewrite (add_noise_run s clean noise ts b rest Hsh Hn Hlen Hts).
  eexists; split; [reflexivity|]. simpl.
  unfold wf in *. rewrite Hn in Wn. rewrite Hsh in Wc, Wn. simpl in Wc, Wn.
  split; [reflexivity|]. split.
  - simpl. rewrite map3_length, broadcast_length, Wc, Wn, Hlen, Hsh. simpl. lia.
  - intros i j Hi Hj.
    assert (i * numel rest + j < b * numel rest)%nat by nia.
    rewrite (map3_nth _ _ _ _ _ 0%Z 0 0)
      by (rewrite ?broadcast_length, ?Wc, ?Wn, ?Hlen; assumption).
    rewrite broadcast_nth by (rewrite ?Hlen; assumption).
    reflexivity.
Qed.

(** C5: at a valid timestep t > 0, [step] returns the posterior mean plus
    fresh Gaussian noise (one draw per element, taken from the generator,
    which it advances) scaled to the posterior variance; at t = 0 it
    returns the posterior mean alone, draws nothing and leaves the
    generator as it was, so its result is the same for every generator
    state: a function of the sample and the model output; the posterior
    variance at t = 0 is exactly zero. *)
Theorem step_noise (s : DDPM.Scheduler) (model_output sample : Tensor) (t : Z)
    (g : Generator) :
  valid_timestep s t -> shape model_output = shape sample ->
  let mean := DDPM.posterior_mean s t
                (DDPM.predict_x0 s t (data model_output) (data sample)) (data sample) in
  ((0 < t)%Z ->
     exists r z,
       randn (shape sample) g = (z, advance (numel (shape sample)) g)
       /\ DDPM.step s model_output t sample g = Ok (r, advance (numel (shape sample)) g)
       /\ prev_sample r
          = mkTensor (shape sample)
              (map2 (fun m zi => m + sqrt (DDPM.posterior_variance s t) * zi)
                    mean (data z)))
  /\ (t = 0%Z ->
        (forall g', exists r, DDPM.step s model_output t sample g' = Ok (r, g')
                              /\ prev_sample r = mkTensor (shape sample) mean)
        /\ DDPM.posterior_variance s t = 0).
Proof.
  intros Ht Hsh mean. split.
  - intros Hpos. pose proof (step_run s model_output sample t g Ht Hsh) as H.
    cbv zeta in H. destruct (Z.ltb_spec 0 t) as [_|]; [|lia].
    eexists _, _. split; [reflexivity|]. split; [exact H|]. reflexivity.
  - intros ->. split.
    + intros g'. pose proof (step_run s model_output sample 0 g' Ht Hsh) as H.
      cbv zeta in H. simpl in H. eexists. split; [exact H|]. reflexivity.
    + unfold DDPM.posterior_variance, DDPM.alpha_bar_prev. simpl.
      unfold Rdiv. ring.
Qed.

(** C6: a timestep outside [0, num_train_timesteps - 1], and so the
    timestep num_train_timesteps itself, makes [step] fail with
    OutOfRangeTimestep, and [add_noise] too as soon as it is one of the
    timesteps of the vector; neither clamps it nor returns a value. *)
Theorem out_of_range_timestep_fails (s : DDPM.Scheduler) (t : Z) :
  (t < 0 \/ DDPM.num_train_timesteps s <= t)%Z ->
  (forall model_output sample g,
      DDPM.step s model_output t sample g = Err OutOfRangeTimestep)
  /\ (forall clean noise ts,
        In t ts -> DDPM.add_noise s clean noise ts = Err OutOfRangeTimestep)
  /\ (forall model_output sample g,
        DDPM.step s model_output (DDPM.num_train_timesteps s) sample g
        = Err OutOfRangeTimestep)
  /\ (forall clean noise ts,
        In (DDPM.num_train_timesteps s) ts ->
        DDPM.add_noise s clean noise ts = Err OutOfRangeTimestep).
Proof.
  assert (Hstep : forall u, (u < 0 \/ DDPM.num_train_timesteps s <= u)%Z ->
                  forall model_output sample g,
                    DDPM.step s model_output u sample g = Err OutOfRangeTimestep).
  { intros u Hu model_output sample g. unfold DDPM.step.
    destruct (DDPM.in_range s u) eqn:E; [|reflexivity].
    apply in_range_valid in E. unfold valid_timestep in E. lia. }
  assert (Hadd : forall u, (u < 0 \/ DDPM.num_train_timesteps s <= u)%Z ->
                 forall clean noise ts, In u ts ->
                   DDPM.add_noise s clean noise ts = Err OutOfRangeTimestep).
  { intros u Hu clean noise ts Hin. unfold DDPM.add_noise.
    destruct (forallb (DDPM.in_range s) ts) eqn:E; [|reflexivity].
    rewrite forallb_forall in E. specialize (E u Hin).
    apply in_range_valid in E. unfold valid_timestep in E. lia. }
  intros Ht. split; [now apply Hstep|]. split; [now apply Hadd|].
  split; [apply Hstep; lia | apply Hadd; lia].
Qed.

(* ================================================================== *)
(** ** The DDPM scheduler: the precomputed schedule *)

Lemma prod_to_shift (f : nat -> R) (n : nat) :
  prod_to f (S n) = f O * prod_to (fun i => f (S i)) n.
Proof.
  induction n as [|n IH].
  - reflexivity.
  - change (prod_to f (S (S n))) with (prod_to f (S n) * f (S (S n))).
    rewrite IH. simpl. ring.
Qed.

Lemma cumprod_from_length (acc : R) (l : list R) :
  length (DDPM.cumprod_from acc l) = length l.
Proof. revert acc. induction l as [|x l IH]; intros acc; simpl; auto. Qed.

(** Entry [t] of the running product is the product of the first [t + 1]
    inputs. *)
Lemma cumprod_from_nth (l : list R) (acc : R) (t : nat) :
  (t < length l)%nat ->
  nth t (DDPM.cumprod_from acc l) 0 = acc * prod_to (fun i => nth i l 0) t.
Proof.
  revert acc t. induction l as [|x l IH]; intros acc t Ht; simpl in Ht; [lia|].
  destruct t as [|t].
  - reflexivity.
  - change (nth (S t) (DDPM.cumprod_from acc (x :: l)) 0)
      with (nth t (DDPM.cumprod_from (acc * x) l) 0).
    rewrite IH by lia. rewrite prod_to_shift. simpl. ring.
Qed.

Lemma prod_to_ext (f g : nat -> R) (n : nat) :
  (forall i, (i <= n)%nat -> f i = g i) -> prod_to f n = prod_to g n.
Proof.
  induction n as [|n IH]; intros H; simpl.
  - apply H; lia.
  - rewrite IH by (intros; apply H; lia). now rewrite (H (S n)) by lia.
Qed.

Lemma prod_to_bounds (f : nat -> R) (n : nat) :
  (forall i, (i <= n)%nat -> 0 < f i < 1) -> 0 < prod_to f n < 1.
Proof.
  induction n as [|n IH]; intros H; simpl.
  - apply H; lia.
  - assert (0 < prod_to f n < 1) by (apply IH; intros; apply H; lia).
    assert (0 < f (S n) < 1) by (apply H; lia). nra.
Qed.

Lemma prod_to_decreasing (f : nat -> R) (n m : nat) :
  (forall i, (i <= m)%nat -> 0 < f i < 1) -> (n <= m)%nat ->
  prod_to f m <= prod_to f n.
Proof.
  intros H. induction m as [|m IH]; intros Hle.
  - replace n with 0%nat by lia. lra.
  - destruct (Nat.eq_dec n (S m)) as [->|Hne]; [lra|].
    assert (prod_to f m <= prod_to f n) by (apply IH; [intros; apply H; lia | lia]).
    assert (0 < prod_to f m < 1) by (apply prod_to_bounds; intros; apply H; lia).
    assert (0 < f (S m) < 1) by (apply H; lia).
    simpl. nra.
Qed.

(** *** The two schedule variants *)

Lemma linspace_length (a b : R) (n : nat) : length (DDPM.linspace a b n) = n.
Proof. unfold DDPM.linspace. now rewrite length_map, length_seq. Qed.

Lemma linspace_nth (a b : R) (n i : nat) :
  (i < n)%nat ->
  nth i (DDPM.linspace a b n) 0 = a + INR i * ((b - a) / INR (n - 1)).
Proof.
  intros H. unfold DDPM.linspace.
  now rewrite (nth_map_seq (fun i => a + INR i * ((b - a) / INR (n - 1)))).
Qed.

Lemma linspace_bounds (a b : R) (n i : nat) :
  0 < a -> a < b -> b < 1 -> (i < n)%nat ->
  a <= nth i (DDPM.linspace a b n) 0 <= b.
Proof.
  intros Ha Hab Hb Hi. rewrite linspace_nth by exact Hi.
  destruct (Nat.eq_dec n 1) as [->|Hn].
  - replace i with 0%nat by lia. simpl. lra.
  - assert (H1 : 0 < INR (n - 1)) by (apply lt_0_INR; lia).
    assert (H2 : 0 <= INR i) by apply pos_INR.
    assert (H3 : INR i <= INR (n - 1)) by (apply le_INR; lia).
    assert (H4 : 0 <= INR i / INR (n - 1) <= 1).
    { split.
      - apply Rmult_le_pos; [lra | left; now apply Rinv_0_lt_compat].
      - apply Rmult_le_reg_r with (INR (n - 1)); [lra|].
        unfold Rdiv. rewrite Rmult_assoc, Rinv_l by lra. lra. }
    replace (INR i * ((b - a) / INR (n - 1))) with ((b - a) * (INR i / INR (n - 1)))
      by (unfold Rdiv; ring).
    nra.
Qed.

Lemma alpha_bar_fn_decreasing (t1 t2 : R) :
  0 <= t1 -> t1 < t2 -> t2 <= 1 ->
  0 <= DDPM.alpha_bar_fn t2 < DDPM.alpha_bar_fn t1.
Proof.
  intros H0 H12 H1. unfold DDPM.alpha_bar_fn.
  pose proof PI_RGT_0 as HPI.
  set (a1 := (t1 + 0.008) / 1.008 * PI / 2).
  set (a2 := (t2 + 0.008) / 1.008 * PI / 2).
  assert (Ha1 : 0 < a1).
  { unfold a1. apply Rmult_lt_0_compat; [|lra].
    apply Rmult_lt_0_compat; [|lra]. apply Rmult_lt_0_compat; lra. }
  assert (Ha12 : a1 < a2).
  { unfold a1, a2. unfold Rdiv.
    apply Rmult_lt_compat_r; [lra|]. apply Rmult_lt_compat_r; [lra|].
    apply Rmult_lt_compat_r; lra. }
  assert (Ha2 : a2 <= PI / 2).
  { unfold a2. replace (PI / 2) with (1 * PI / 2) by field.
    unfold Rdiv. apply Rmult_le_compat_r; [lra|]. apply Rmult_le_compat_r; [lra|].
    apply Rmult_le_reg_r with 1.008; [lra|].
    rewrite Rmult_assoc, Rinv_l by lra. lra. }
  assert (Hc2 : 0 <= cos a2) by (apply cos_ge_0; lra).
  assert (Hc12 : cos a2 < cos a1) by (apply cos_decreasing_1; lra).
  split.
  - apply Rle_0_sqr.
  - apply Rsqr_incrst_1; lra.
Qed.

Lemma betas_for_alpha_bar_length (n : nat) : length (DDPM.betas_for_alpha_bar n) = n.
Proof. unfold DDPM.betas_for_alpha_bar. now rewrite length_map, length_seq. Qed.

Lemma betas_for_alpha_bar_bounds (n i : nat) :
  (i < n)%nat -> 0 < nth i (DDPM.betas_for_alpha_bar n) 0 < 1.
Proof.
  intros Hi. unfold DDPM.betas_for_alpha_bar.
  rewrite (nth_map_seq
             (fun i => Rmin (1 - DDPM.alpha_bar_fn (INR (i + 1) / INR n)
                               / DDPM.alpha_bar_fn (INR i / INR n)) 0.999))
    by exact Hi.
  assert (Hn : 0 < INR n) by (apply lt_0_INR; lia).
  assert (Hinv : 0 < / INR n) by now apply Rinv_0_lt_compat.
  assert (H0 : 0 <= INR i / INR n).
  { apply Rmult_le_pos; [apply pos_INR | lra]. }
  assert (H12 : INR i / INR n < INR (i + 1) / INR n).
  { unfold Rdiv. apply Rmult_lt_compat_r; [exact Hinv|]. apply lt_INR. lia. }
  assert (H1 : INR (i + 1) / INR n <= 1).
  { apply Rmult_le_reg_r with (INR n); [exact Hn|].
    unfold Rdiv. rewrite Rmult_assoc, Rinv_l by lra.
    rewrite Rmult_1_r, Rmult_1_l. apply le_INR. lia. }
  destruct (alpha_bar_fn_decreasing _ _ H0 H12 H1) as [Hf2 Hf12].
  set (f1 := DDPM.alpha_bar_fn (INR i / INR n)) in *.
  set (f2 := DDPM.alpha_bar_fn (INR (i + 1) / INR n)) in *.
  assert (Hr : 0 <= f2 / f1 < 1).
  { split.
    - apply Rmult_le_pos; [exact Hf2 | left; apply Rinv_0_lt_compat; lra].
    - apply Rmult_lt_reg_r with f1; [lra|].
      unfold Rdiv. rewrite Rmult_assoc, Rinv_l by lra. lra. }
  unfold Rmin. destruct (Rle_dec (1 - f2 / f1) 0.999); lra.
Qed.

(** *** What the constructor precomputes *)

Lemma known_schedule_cases (name : string) :
  DDPM.known_schedule name = true ->
  name = "linear"%string \/ (String.eqb name "linear" = false
                             /\ name = "squaredcos_cap_v2"%string).
Proof.
  unfold DDPM.known_schedule. intros H.
  destruct (String.eqb_spec name "linear") as [E|E]; [now left|].
  right. split; [reflexivity|]. simpl in H. now apply String.eqb_eq.
Qed.

Lemma Rltb_true (x y : R) : DDPM.Rltb x y = true <-> x < y.
Proof. unfold DDPM.Rltb. destruct (Rlt_dec x y); split; auto; discriminate. Qed.

Lemma valid_config_spec (c : DDPM.Config) :
  DDPM.valid_config c = true <->
  (0 < DDPM.cfg_num_train_timesteps c)%Z
  /\ DDPM.known_schedule (DDPM.cfg_beta_schedule c) = true
  /\ 0 < DDPM.cfg_beta_start c
  /\ DDPM.cfg_beta_start c < DDPM.cfg_beta_end c
  /\ DDPM.cfg_beta_end c < 1.
Proof.
  unfold DDPM.valid_config.
  rewrite !andb_true_iff, !Rltb_true, Z.ltb_lt. tauto.
Qed.

Lemma make_betas_length (c : DDPM.Config) :
  length (DDPM.make_betas c) = Z.to_nat (DDPM.cfg_num_train_timesteps c).
Proof.
  unfold DDPM.make_betas.
  destruct (String.eqb _ _); [apply linspace_length | apply betas_for_alpha_bar_length].
Qed.

Lemma make_betas_bounds (c : DDPM.Config) (i : nat) :
  DDPM.valid_config c = true ->
  (i < Z.to_nat (DDPM.cfg_num_train_timesteps c))%nat ->
  0 < nth i (DDPM.make_betas c) 0 < 1.
Proof.
  intros Hv Hi. apply valid_config_spec in Hv as (_ & _ & Ha & Hab & Hb).
  unfold DDPM.make_betas. destruct (String.eqb _ _).
  - pose proof (linspace_bounds _ _ _ i Ha Hab Hb Hi). lra.
  - now apply betas_for_alpha_bar_bounds.
Qed.

Section PrecomputedSchedule.
Variable c : DDPM.Config.
Hypothesis c_valid : DDPM.valid_config c = true.

Let s := DDPM.precompute c.
Let T := Z.to_nat (DDPM.cfg_num_train_timesteps c).

Lemma precompute_beta (i : nat) :
  DDPM.beta s (Z.of_nat i) = nth i (DDPM.make_betas c) 0.
Proof. unfold DDPM.beta, DDPM.lookup. now rewrite Nat2Z.id. Qed.

Lemma precompute_beta_bounds (i : nat) :
  (i < T)%nat -> 0 < DDPM.beta s (Z.of_nat i) < 1.
Proof. intros H. rewrite precompute_beta. now apply make_betas_bounds. Qed.

Lemma precompute_alpha (i : nat) :
  (i < T)%nat -> DDPM.alpha s (Z.of_nat i) = 1 - DDPM.beta s (Z.of_nat i).
Proof.
  intros H. rewrite precompute_beta. unfold DDPM.alpha, DDPM.lookup.
  rewrite Nat2Z.id. simpl.
  rewrite (nth_indep _ 0 ((fun b => 1 - b) 0))
    by (rewrite length_map, make_betas_length; exact H).
  apply (map_nth (fun b => 1 - b)).
Qed.

Lemma precompute_alpha_bar (i : nat) :
  (i < T)%nat ->
  DDPM.alpha_bar s (Z.of_nat i) = prod_to (fun k => 1 - DDPM.beta s (Z.of_nat k)) i.
Proof.
  intros H. unfold DDPM.alpha_bar, DDPM.lookup. rewrite Nat2Z.id. simpl.
  unfold DDPM.cumprod.
  rewrite cumprod_from_nth by (rewrite length_map, make_betas_length; exact H).
  rewrite Rmult_1_l. apply prod_to_ext. intros k Hk.
  rewrite precompute_beta.
  rewrite (nth_indep _ 0 ((fun b => 1 - b) 0))
    by (rewrite length_map, make_betas_length; fold T; lia).
  apply (map_nth (fun b => 1 - b)).
Qed.

Lemma precompute_alpha_bar_bounds (i : nat) :
  (i < T)%nat -> 0 < DDPM.alpha_bar s (Z.of_nat i) < 1.
Proof.
  intros H. rewrite precompute_alpha_bar by exact H.
  apply prod_to_bounds. intros k Hk.
  pose proof (precompute_beta_bounds k ltac:(lia)). lra.
Qed.

Lemma precompute_alpha_bar_decreasing (i j : nat) :
  (i <= j)%nat -> (j < T)%nat ->
  DDPM.alpha_bar s (Z.of_nat j) <= DDPM.alpha_bar s (Z.of_nat i).
Proof.
  intros Hij Hj. rewrite !precompute_alpha_bar by lia.
  apply prod_to_decreasing; [|exact Hij]. intros k Hk.
  pose proof (precompute_beta_bounds k ltac:(lia)). lra.
Qed.

Lemma precompute_valid_timestep (t : Z) :
  valid_timestep s t -> exists i, t = Z.of_nat i /\ (i < T)%nat.
Proof.
  unfold valid_timestep. simpl. intros H. exists (Z.to_nat t). unfold T. lia.
Qed.

End PrecomputedSchedule.

(** *** The reference configuration: 1000 timesteps, linear, 0.0001 to 0.02 *)

Lemma zlow_nonneg (f : nat -> Z) (d scale : Z) (n : nat) :
  (0 < d)%Z -> (0 < scale)%Z -> (forall i, (i <= n)%nat -> (0 <= f i)%Z) ->
  (0 <= zlow f d scale n)%Z.
Proof.
  intros Hd Hs. induction n as [|n IH]; intros Hf; simpl.
  - apply Z.div_pos; [|lia]. apply Z.mul_nonneg_nonneg; [lia | apply Hf; lia].
  - apply Z.div_pos; [|lia].
    apply Z.mul_nonneg_nonneg; [apply IH; intros; apply Hf; lia | apply Hf; lia].
Qed.

Lemma floor_div_le (a d : Z) : (0 < d)%Z -> IZR (a / d) <= IZR a / IZR d.
Proof.
  intros Hd. assert (H : (d * (a / d) <= a)%Z) by (apply Z.mul_div_le; lia).
  apply IZR_le in H. rewrite mult_IZR in H. apply IZR_lt in Hd.
  apply Rmult_le_reg_r with (IZR d); [exact Hd|].
  unfold Rdiv. rewrite Rmult_assoc, Rinv_l by lra. lra.
Qed.

Lemma ceil_div_ge (a d : Z) : (0 < d)%Z -> IZR a / IZR d <= IZR (a / d + 1).
Proof.
  intros Hd. assert (H : (a < d * Z.succ (a / d))%Z) by (apply Z.mul_succ_div_gt; lia).
  apply IZR_lt in H. rewrite mult_IZR, succ_IZR in H. rewrite plus_IZR.
  apply IZR_lt in Hd.
  apply Rmult_le_reg_r with (IZR d); [exact Hd|].
  unfold Rdiv. rewrite Rmult_assoc, Rinv_l by lra. simpl. lra.
Qed.

Lemma prod_to_enclosure (f : nat -> Z) (d scale : Z) (n : nat) :
  (0 < d)%Z -> (0 < scale)%Z -> (forall i, (i <= n)%nat -> (0 <= f i)%Z) ->
  IZR (zlow f d scale n) / IZR scale
  <= prod_to (fun i => IZR (f i) / IZR d) n
  <= IZR (zhigh f d scale n) / IZR scale.
Proof.
  intros Hd Hs.
  assert (Hd' : 0 < IZR d) by now apply IZR_lt.
  assert (Hs' : 0 < IZR scale) by now apply IZR_lt.
  assert (Hq : forall x, (0 <= x)%Z -> 0 <= IZR x / IZR d).
  { intros x Hx. apply IZR_le in Hx.
    apply Rmult_le_pos; [exact Hx | left; now apply Rinv_0_lt_compat]. }
  assert (Hscale : forall a b, a <= b -> a / IZR scale <= b / IZR scale).
  { intros a b Hab. apply Rmult_le_compat_r; [left; now apply Rinv_0_lt_compat | exact Hab]. }
  induction n as [|n IH]; intros Hf.
  - simpl. pose proof (floor_div_le (scale * f O) d Hd) as L.
    pose proof (ceil_div_ge (scale * f O) d Hd) as U.
    rewrite mult_IZR in L, U.
    replace (IZR (f O) / IZR d) with (IZR scale * IZR (f O) / IZR d / IZR scale)
      by (field; lra).
    split; apply Hscale; assumption.
  - assert (Hf' : forall i, (i <= n)%nat -> (0 <= f i)%Z) by (intros; apply Hf; lia).
    specialize (IH Hf'). destruct IH as [IL IU].
    pose proof (zlow_nonneg f d scale n Hd Hs Hf') as Lpos. apply IZR_le in Lpos.
    pose proof (Hq (f (S n)) (Hf (S n) (le_n _))) as Xpos.
    change (prod_to (fun i => IZR (f i) / IZR d) (S n))
      with (prod_to (fun i => IZR (f i) / IZR d) n * (IZR (f (S n)) / IZR d)).
    change (zlow f d scale (S n)) with (zlow f d scale n * f (S n) / d)%Z.
    change (zhigh f d scale (S n)) with (zhigh f d scale n * f (S n) / d + 1)%Z.
    pose proof (floor_div_le (zlow f d scale n * f (S n)) d Hd) as L.
    pose proof (ceil_div_ge (zhigh f d scale n * f (S n)) d Hd) as U.
    rewrite mult_IZR in L, U.
    set (P := prod_to (fun i => IZR (f i) / IZR d) n) in *.
    set (X := IZR (f (S n)) / IZR d) in *.
    split.
    + apply Rle_trans with (IZR (zlow f d scale n) / IZR scale * X).
      * replace (IZR (zlow f d scale n) / IZR scale * X)
          with (IZR (zlow f d scale n) * IZR (f (S n)) / IZR d / IZR scale)
          by (unfold X; field; lra).
        apply Hscale. exact L.
      * apply Rmult_le_compat_r; assumption.
    + apply Rle_trans with (IZR (zhigh f d scale n) / IZR scale * X).
      * apply Rmult_le_compat_r; assumption.
      * replace (IZR (zhigh f d scale n) / IZR scale * X)
          with (IZR (zhigh f d scale n) * IZR (f (S n)) / IZR d / IZR scale)
          by (unfold X; field; lra).
        apply Hscale. exact U.
Qed.

Lemma fraction_lt (n d p q : Z) :
  (0 < d)%Z -> (0 < q)%Z -> (n * q < p * d)%Z -> IZR n / IZR d < IZR p / IZR q.
Proof.
  intros Hd Hq H. apply IZR_lt in Hd, Hq, H. rewrite !mult_IZR in H.
  apply Rmult_lt_reg_r with (IZR d * IZR q); [nra|].
  replace (IZR n / IZR d * (IZR d * IZR q)) with (IZR n * IZR q) by (field; lra).
  replace (IZR p / IZR q * (IZR d * IZR q)) with (IZR p * IZR d) by (field; lra).
  exact H.
Qed.

Lemma default_config_valid : DDPM.valid_config DDPM.default_config = true.
Proof.
  apply valid_config_spec. simpl. repeat split; try lra; reflexivity.
Qed.

Lemma default_beta (i : nat) :
  (i < 1000)%nat ->
  1 - DDPM.beta (DDPM.precompute DDPM.default_config) (Z.of_nat i)
  = IZR (9989001 - 199 * Z.of_nat i) / IZR 9990000.
Proof.
  intros H. rewrite precompute_beta.
  unfold DDPM.make_betas, DDPM.default_config.
  cbv [DDPM.cfg_beta_schedule DDPM.cfg_beta_start DDPM.cfg_beta_end
       DDPM.cfg_num_train_timesteps].
  change (String.eqb "linear" "linear") with true. cbv iota.
  rewrite linspace_nth by (change (Z.to_nat 1000) with 1000%nat; exact H).
  rewrite !INR_IZR_INZ.
  change (Z.of_nat (Z.to_nat 1000 - 1)) with 999%Z.
  rewrite minus_IZR, mult_IZR.
  unfold Q2R. cbn [QArith_base.Qnum QArith_base.Qden]. field.
Qed.

Lemma default_alpha_bar_last :
  DDPM.alpha_bar (DDPM.precompute DDPM.default_config) 999
  = prod_to (fun i => IZR (9989001 - 199 * Z.of_nat i) / IZR 9990000) 999.
Proof.
  change 999%Z with (Z.of_nat 999).
  rewrite precompute_alpha_bar
    by (change (Z.to_nat (DDPM.cfg_num_train_timesteps DDPM.default_config)) with 1000%nat; lia).
  apply prod_to_ext. intros i Hi. apply default_beta. lia.
Qed.

Lemma default_alpha_bar_last_bounds :
  0.0000403 < DDPM.alpha_bar (DDPM.precompute DDPM.default_config) 999 < 0.0000404.
Proof.
  rewrite default_alpha_bar_last.
  destruct (prod_to_enclosure (fun i => 9989001 - 199 * Z.of_nat i)%Z 9990000
              (10 ^ 20) 999) as [L U]; [lia | lia | intros; lia | ].
  split.
  - eapply Rlt_le_trans; [|exact L].
    replace 0.0000403 with (IZR 403 / IZR 10000000) by lra.
    apply fraction_lt; [lia | lia | ]. apply Z.ltb_lt. vm_compute. reflexivity.
  - eapply Rle_lt_trans; [exact U|].
    replace 0.0000404 with (IZR 404 / IZR 10000000) by lra.
    apply fraction_lt; [lia | lia | ]. apply Z.ltb_lt. vm_compute. reflexivity.
Qed.

Lemma default_alpha_bar_first :
  DDPM.alpha_bar (DDPM.precompute DDPM.default_config) 0 = 0.9999.
Proof.
  change 0%Z with (Z.of_nat 0).
  rewrite precompute_alpha_bar by (change (Z.to_nat (DDPM.cfg_num_train_timesteps DDPM.default_config)) with 1000%nat; lia).
  cbv beta iota delta [prod_to]. rewrite (default_beta 0) by lia.
  change (Z.of_nat 0) with 0%Z. change (9989001 - 199 * 0)%Z with 9989001%Z. lra.
Qed.

(* ================================================================== *)
(** ** What no cell touches *)

Section Frame.
Context {C : Collaborators}.

Lemma keeps_ret {A : Type} (a : A) : keeps_scheduler (ret a).
Proof. intros w. split; reflexivity. Qed.

Lemma keeps_lift {A : Type} (r : result A) : keeps_scheduler (lift r).
Proof. intros w. split; reflexivity. Qed.

Lemma keeps_gets {A : Type} (f : World -> A) : keeps_scheduler (gets f).
Proof. intros w. split; reflexivity. Qed.

Lemma keeps_bind {A B : Type} (m : M A) (k : A -> M B) :
  keeps_scheduler m -> (forall a, keeps_scheduler (k a)) -> keeps_scheduler (bind m k).
Proof.
  intros Hm Hk w. unfold bind. destruct (Hm w) as [H1 H2].
  destruct (m w) as [[a|e] w1]; simpl in *.
  - destruct (Hk a w1) as [H3 H4]. split; congruence.
  - split; assumption.
Qed.

Lemma keeps_torch_randn (sh : list nat) : keeps_scheduler (torch_randn sh).
Proof. intros w. split; reflexivity. Qed.

Lemma keeps_torch_randint (low high : Z) (n : nat) :
  keeps_scheduler (torch_randint low high n).
Proof.
  intros w. unfold torch_randint.
  destruct (randint _ _ _ _) as [[ts g]|e]; simpl.
  - destruct (with_generator_same (device w) g w) as (a & _ & _ & _ & b & _).
    split; assumption.
  - split; reflexivity.
Qed.

Lemma keeps_scheduler_step (residual : Tensor) (t : Z) (sample : Tensor) :
  keeps_scheduler (scheduler_step residual t sample).
Proof.
  intros w. destruct (scheduler_step_frame residual t sample w) as (a & _ & _ & _ & b & _).
  split; assumption.
Qed.

Lemma keeps_train_step (clean_images : Tensor) : keeps_scheduler (train_step clean_images).
Proof.
  unfold train_step.
  apply keeps_bind; [apply keeps_torch_randn | intros noise].
  apply keeps_bind; [apply keeps_lift | intros bs].
  apply keeps_bind; [apply keeps_gets | intros s].
  apply keeps_bind; [apply keeps_torch_randint | intros ts].
  apply keeps_bind; [apply keeps_lift | intros noisy].
  apply keeps_bind; [apply keeps_gets | intros theta].
  apply keeps_bind; [apply keeps_lift | intros loss].
  apply keeps_bind; [intros w; split; reflexivity | intros _].
  apply keeps_bind; [intros w; split; reflexivity | intros _].
  apply keeps_bind; [|intros _; intros w; split; reflexivity].
  intros w. unfold optimizer_step_cell. destruct (optimizer_step _ _ _). split; reflexivity.
Qed.

Lemma keeps_train_epoch (batches : list Tensor) : keeps_scheduler (train_epoch batches).
Proof.
  induction batches as [|b r IH]; simpl.
  - apply keeps_ret.
  - apply keeps_bind; [apply keeps_train_step | intros _; exact IH].
Qed.

Lemma keeps_training_loop (epochs : list (list Tensor)) :
  keeps_scheduler (training_loop epochs).
Proof.
  induction epochs as [|b r IH]; simpl.
  - apply keeps_ret.
  - apply keeps_bind; [apply keeps_train_epoch | intros _; exact IH].
Qed.

Lemma keeps_sampling_loop : keeps_scheduler sampling_loop.
Proof.
  intros w. destruct (sampling_loop_frame_generators w) as (a & _ & _ & _ & b & _).
  split; assumption.
Qed.

End Frame.

(* ================================================================== *)
(** ** The concrete setting meets the contracts *)

Lemma ddpm_full_descending_range net net_grad O opt (c : DDPM.Config) :
  @full_descending_range (ddpm_setting net net_grad O opt) (DDPM.precompute c).
Proof. reflexivity. Qed.

Lemma ddpm_add_noise_contract net net_grad O opt (s : DDPM.Scheduler) :
  @add_noise_contract (ddpm_setting net net_grad O opt) s.
Proof.
  intros clean noise ts b rest Hsh Hn Hlen Hts. simpl.
  rewrite (add_noise_run s clean noise ts b rest Hsh Hn Hlen Hts).
  eexists. split; reflexivity.
Qed.

Lemma ddpm_step_contract net net_grad O opt (s : DDPM.Scheduler) :
  @step_contract (ddpm_setting net net_grad O opt) s.
Proof.
  intros model_output t sample g Ht Hsh. simpl. now apply step_shape.
Qed.

Lemma scale_model_keeps_shape : @model_keeps_shape demo_setting.
Proof. intros theta x ts. reflexivity. Qed.

Lemma derivable_pt_lim_ext (f g : R -> R) (x l : R) :
  (forall v, f v = g v) -> derivable_pt_lim f x l -> derivable_pt_lim g x l.
Proof.
  intros E D eps Heps. destruct (D eps Heps) as (delta & H).
  exists delta. intros h Hh Hlt. rewrite <- !E. now apply H.
Qed.

(** The derivative of the sum of the squared errors of the scaled input. *)
Lemma squared_errors_derivative (xs ns : list R) (v : R) :
  derivable_pt_lim
    (fun u => sum_list (map2 (fun p n => (p - n) * (p - n)) (map (Rmult u) xs) ns))
    v
    (sum_list (map2 (fun xk nk => 2 * (v * xk - nk) * xk) xs ns)).
Proof.
  revert ns. induction xs as [|x xs IH]; intros [|n ns]; simpl;
    try apply derivable_pt_lim_const.
  pose proof (derivable_pt_lim_minus _ _ _ _ _
                (derivable_pt_lim_mult _ _ v _ _ (derivable_pt_lim_id v)
                                       (derivable_pt_lim_const x v))
                (derivable_pt_lim_const n v)) as A.
  pose proof (derivable_pt_lim_plus _ _ _ _ _
                (derivable_pt_lim_mult _ _ _ _ _ A A) (IH ns)) as D.
  unfold plus_fct, mult_fct, minus_fct, fct_cte, id in D.
  eapply derivable_pt_lim_ext; [| replace (2 * (v * x - n) * x
      + sum_list (map2 (fun xk nk => 2 * (v * xk - nk) * xk) xs ns))
    with ((1 * x + v * 0 - 0) * (v * x - n) + (v * x - n) * (1 * x + v * 0 - 0)
          + sum_list (map2 (fun xk nk => 2 * (v * xk - nk) * xk) xs ns)) by ring;
    exact D].
  intros u. reflexivity.
Qed.

Lemma set_nth_head (i : nat) (v : R) (theta : list R) :
  (i < length theta)%nat ->
  nth 0 (set_nth i v theta) 0 = if (i =? 0)%nat then v else nth 0 theta 0.
Proof.
  destruct theta as [|a theta]; simpl; [lia|]. destruct i; reflexivity.
Qed.

Lemma scale_model_autograd_sound : @autograd_sound demo_setting.
Proof.
  intros theta x ts target i Hi. simpl.
  unfold scale_model_grad.
  rewrite (nth_map_seq
             (fun i => if same_shape (shape x) (shape target) && (i =? 0)%nat
                       then sum_list (map2 (fun xk nk => 2 * (nth 0 theta 0 * xk - nk) * xk)
                                           (data x) (data target))
                            / INR (numel (shape x))
                       else 0)) by exact Hi.
  unfold loss_of, mse_loss. simpl.
  destruct (same_shape (shape x) (shape target)); simpl.
  - destruct (Nat.eqb_spec i 0) as [->|Hne].
    + destruct theta as [|a theta]; [simpl in Hi; lia|]. simpl.
      pose proof (derivable_pt_lim_scal _ (/ INR (numel (shape x))) _ _
                    (squared_errors_derivative (data x) (data target) a)) as D.
      unfold mult_real_fct in D.
      eapply derivable_pt_lim_ext; [| replace (sum_list
            (map2 (fun xk nk => 2 * (a * xk - nk) * xk) (data x) (data target))
            / INR (numel (shape x)))
        with (/ INR (numel (shape x))
              * sum_list (map2 (fun xk nk => 2 * (a * xk - nk) * xk) (data x) (data target)))
        by (unfold Rdiv; ring); exact D].
      intros v. simpl. unfold Rdiv. ring.
    + eapply derivable_pt_lim_ext; [| apply (derivable_pt_lim_const
         (sum_list (map2 (fun p n => (p - n) * (p - n))
                         (map (Rmult (nth 0 theta 0)) (data x)) (data target))
          / INR (numel (shape x))))].
      intros v. unfold fct_cte. rewrite set_nth_head by exact Hi.
      destruct (Nat.eqb_spec i 0); [contradiction | reflexivity].
  - apply derivable_pt_lim_const.
Qed.

(* ================================================================== *)
(** ** The schedule of a constructed scheduler *)

Lemma constructed (c : DDPM.Config) (s : DDPM.Scheduler) :
  DDPM.DDPMScheduler c = Ok s -> DDPM.valid_config c = true /\ s = DDPM.precompute c.
Proof.
  unfold DDPM.DDPMScheduler. destruct (DDPM.valid_config c); intros H; inversion H; auto.
Qed.

(** C4, as the schedule has it: for every scheduler the constructor
    returns, at every valid timestep beta lies strictly between 0 and 1,
    alpha_bar is the product of (1 - beta_i) over i in [0, t] and lies
    strictly between 0 and 1; alpha_bar is non-increasing in t; at the first
    timestep it is 1 - beta_0.  How near to 1 and to 0 its two ends come
    depends on the configuration: for the reference configuration (1000
    timesteps, linear, 0.0001 to 0.02) alpha_bar_0 = 0.9999 and alpha_bar_999
    lies between 0.0000403 and 0.0000404.  The training loop and the
    sampling loop leave the scheduler they use as it was constructed. *)
Theorem schedule_invariants (c : DDPM.Config) (s : DDPM.Scheduler) :
  DDPM.DDPMScheduler c = Ok s ->
  (forall t, valid_timestep s t ->
      0 < DDPM.beta s t < 1
      /\ DDPM.alpha_bar s t = prod_to (fun i => 1 - DDPM.beta s (Z.of_nat i)) (Z.to_nat t)
      /\ 0 < DDPM.alpha_bar s t < 1)
  /\ (forall t u, valid_timestep s t -> valid_timestep s u -> (t <= u)%Z ->
        DDPM.alpha_bar s u <= DDPM.alpha_bar s t)
  /\ DDPM.alpha_bar s 0 = 1 - DDPM.beta s 0
  /\ (c = DDPM.default_config ->
        DDPM.alpha_bar s 0 = 0.9999
        /\ 0.0000403 < DDPM.alpha_bar s 999 < 0.0000404)
  /\ (forall net net_grad O opt (w : @World (ddpm_setting net net_grad O opt))
             (epochs : list (list Tensor)),
        noise_scheduler w = s ->
        noise_scheduler (snd (training_loop epochs w)) = s
        /\ noise_scheduler (snd (sampling_loop w)) = s).
Proof.
  intros H. apply constructed in H as [Hv ->].
  assert (HT : (0 < Z.to_nat (DDPM.cfg_num_train_timesteps c))%nat).
  { apply valid_config_spec in Hv. lia. }
  split; [|split; [|split; [|split]]].
  - intros t Ht. destruct (precompute_valid_timestep c t Ht) as (i & -> & Hi).
    rewrite Nat2Z.id. split; [now apply precompute_beta_bounds|].
    split; [now apply precompute_alpha_bar | now apply precompute_alpha_bar_bounds].
  - intros t u Ht Hu Htu.
    destruct (precompute_valid_timestep c t Ht) as (i & -> & Hi).
    destruct (precompute_valid_timestep c u Hu) as (j & -> & Hj).
    apply precompute_alpha_bar_decreasing; [exact Hv | lia | exact Hj].
  - change 0%Z with (Z.of_nat 0). now rewrite precompute_alpha_bar by exact HT.
  - intros ->. split; [apply default_alpha_bar_first | apply default_alpha_bar_last_bounds].
  - intros net net_grad O opt w epochs Hw. split.
    + rewrite <- Hw. apply keeps_training_loop.
    + rewrite <- Hw. apply keeps_sampling_loop.
Qed.

(** The claim C4 states for every valid configuration fails for a schedule
    of a single timestep: the first timestep is the last one, and alpha_bar
    there is 0.9999, not near 0. *)
Lemma single_timestep_schedule :
  exists s, DDPM.DDPMScheduler (DDPM.mkConfig 1 "linear"%string 0.0001 0.02) = Ok s
            /\ (DDPM.num_train_timesteps s - 1 = 0)%Z
            /\ DDPM.alpha_bar s (DDPM.num_train_timesteps s - 1) = 0.9999
            /\ ~ DDPM.alpha_bar s (DDPM.num_train_timesteps s - 1) < 0.5.
Proof.
  assert (Hv : DDPM.valid_config (DDPM.mkConfig 1 "linear"%string 0.0001 0.02) = true).
  { apply valid_config_spec. simpl. repeat split; try lra; reflexivity. }
  exists (DDPM.precompute (DDPM.mkConfig 1 "linear"%string 0.0001 0.02)).
  unfold DDPM.DDPMScheduler. rewrite Hv. split; [reflexivity|]. split; [reflexivity|].
  assert (E : DDPM.alpha_bar (DDPM.precompute (DDPM.mkConfig 1 "linear"%string 0.0001 0.02)) 0
              = 0.9999).
  { unfold DDPM.alpha_bar, DDPM.lookup. simpl. lra. }
  simpl (DDPM.num_train_timesteps _ - 1)%Z. rewrite E. split; lra.
Qed.

(* ================================================================== *)
(** ** Two degenerate cases of the scheduler's operations *)

(** With all-zero noise [add_noise] scales the clean input by
    sqrt(alpha_bar_t). *)
Lemma add_noise_zero_noise (s : DDPM.Scheduler) (clean : Tensor) (ts : list Z)
    (b : nat) (rest : list nat) :
  wf clean -> shape clean = b :: rest -> length ts = b ->
  Forall (valid_timestep s) ts ->
  exists noisy,
    DDPM.add_noise s clean (zeros (shape clean)) ts = Ok noisy
    /\ forall i j, (i < b)%nat -> (j < numel rest)%nat ->
         nth (i * numel rest + j) (data noisy) 0
         = sqrt (DDPM.alpha_bar s (nth i ts 0%Z)) * nth (i * numel rest + j) (data clean) 0.
Proof.
  intros Wc Hsh Hlen Hts.
  rewrite (add_noise_run s clean (zeros (shape clean)) ts b rest Hsh eq_refl Hlen Hts).
  eexists; split; [reflexivity|]. simpl.
  unfold wf in Wc. rewrite Hsh in Wc. simpl in Wc.
  intros i j Hi Hj.
  assert (i * numel rest + j < b * numel rest)%nat by nia.
  rewrite (map3_nth _ _ _ _ _ 0%Z 0 0)
    by (rewrite ?broadcast_length, ?repeat_length, ?Wc, ?Hlen, ?Hsh; simpl; assumption).
  rewrite broadcast_nth by (rewrite ?Hlen; assumption).
  rewrite nth_repeat. ring.
Qed.

(** At timestep 0 of a constructed scheduler the posterior mean is the
    estimate of the denoised sample itself. *)
Lemma final_step_returns_estimate (c : DDPM.Config) (s : DDPM.Scheduler)
    (model_output sample : Tensor) (g : Generator) :
  DDPM.DDPMScheduler c = Ok s -> shape model_output = shape sample ->
  DDPM.step s model_output 0 sample g
  = Ok (mkStepResult
          (mkTensor (shape sample) (DDPM.predict_x0 s 0 (data model_output) (data sample)))
          (mkTensor (shape sample) (DDPM.predict_x0 s 0 (data model_output) (data sample))),
        g).
Proof.
  intros Hc Hsh. destruct (constructed c s Hc) as [Hv ->].
  assert (HT : (0 < Z.to_nat (DDPM.cfg_num_train_timesteps c))%nat).
  { apply valid_config_spec in Hv. lia. }
  assert (V : valid_timestep (DDPM.precompute c) 0).
  { unfold valid_timestep. simpl. apply valid_config_spec in Hv. lia. }
  pose proof (step_run (DDPM.precompute c) model_output sample 0 g V Hsh) as H.
  cbv zeta in H. simpl (0 <? 0)%Z in H. rewrite H. clear H.
  pose proof (precompute_beta_bounds c Hv 0 HT) as Hb.
  pose proof (precompute_alpha_bar c 0 HT) as Ha. simpl in Ha.
  change (Z.of_nat 0) with 0%Z in Hb, Ha.
  assert (E : forall x0 xs, (length x0 <= length xs)%nat ->
              DDPM.posterior_mean (DDPM.precompute c) 0 x0 xs = x0).
  { unfold DDPM.posterior_mean, DDPM.alpha_bar_prev. simpl (0 =? 0)%Z. cbv iota.
    rewrite sqrt_1, Ha.
    induction x0 as [|a x0 IH]; intros [|x xs] Hlen; simpl in *; try lia; auto.
    rewrite IH by lia. f_equal. field. lra. }
  rewrite E; [reflexivity|].
  unfold DDPM.predict_x0. rewrite map2_length. lia.
Qed.

(* ================================================================== *)
(** ** The theorems at the concrete setting *)

#[local] Existing Instance demo_setting.

(** The cells' ingredients on small inputs. *)

Example descending_four : DDPM.descending 4 = [3; 2; 1; 0]%Z.
Proof. reflexivity. Qed.

Example default_timesteps_ends :
  length (DDPM.timesteps (DDPM.precompute DDPM.default_config)) = 1000%nat
  /\ nth 0 (DDPM.timesteps (DDPM.precompute DDPM.default_config)) 0%Z = 999%Z
  /\ nth 999 (DDPM.timesteps (DDPM.precompute DDPM.default_config)) 7%Z = 0%Z.
Proof. repeat split; reflexivity. Qed.

Example demo_timesteps_drawn :
  randint 0 4 2 (advance 4 demo_generator)
  = Ok ([3; 2]%Z, advance 2 (advance 4 demo_generator)).
Proof. reflexivity. Qed.

Example randint_empty_range : randint 5 5 2 demo_generator = Err RuntimeError.
Proof. reflexivity. Qed.

Example demo_betas :
  DDPM.beta (DDPM.precompute demo_config) 0 = 0.1
  /\ DDPM.beta (DDPM.precompute demo_config) 3 = 0.2
  /\ DDPM.alpha_bar (DDPM.precompute demo_config) 0 = 0.9.
Proof.
  unfold DDPM.alpha_bar, DDPM.beta, DDPM.lookup. simpl. repeat split; lra.
Qed.

Example mse_loss_two_elements :
  mse_loss (mkTensor [2%nat] [1; 3]) (mkTensor [2%nat] [0; 1]) = Ok 2.5.
Proof. unfold mse_loss. simpl. f_equal. lra. Qed.

Example mse_loss_shapes_differ :
  mse_loss (mkTensor [2%nat] [1; 3]) (mkTensor [1; 2]%nat [0; 1]) = Err ShapeMismatch.
Proof. reflexivity. Qed.

Lemma demo_valid_timesteps :
  Forall (valid_timestep (DDPM.precompute demo_config)) [0%Z; 3%Z].
Proof. repeat constructor; unfold valid_timestep; simpl; lia. Qed.

(** [add_noise_formula] on the demo batch, at timesteps 0 and 3. *)
Lemma add_noise_formula_witness :
  wf demo_batch /\ wf demo_noise
  /\ shape demo_noise = shape demo_batch
  /\ Forall (valid_timestep (DDPM.precompute demo_config)) [0%Z; 3%Z]
  /\ exists noisy,
       DDPM.add_noise (DDPM.precompute demo_config) demo_batch demo_noise [0%Z; 3%Z]
       = Ok noisy
       /\ shape noisy = shape demo_batch
       /\ wf noisy
       /\ forall i j, (i < 2)%nat -> (j < numel [2%nat])%nat ->
            nth (i * numel [2%nat] + j) (data noisy) 0
            = sqrt (DDPM.alpha_bar (DDPM.precompute demo_config) (nth i [0%Z; 3%Z] 0%Z))
              * nth (i * numel [2%nat] + j) (data demo_batch) 0
              + sqrt (1 - DDPM.alpha_bar (DDPM.precompute demo_config) (nth i [0%Z; 3%Z] 0%Z))
                * nth (i * numel [2%nat] + j) (data demo_noise) 0.
Proof.
  split; [reflexivity|]. split; [reflexivity|]. split; [reflexivity|].
  split; [exact demo_valid_timesteps|].
  apply (add_noise_formula (DDPM.precompute demo_config) demo_batch demo_noise
           [0%Z; 3%Z] 2 [2%nat]);
    [reflexivity | reflexivity | reflexivity | reflexivity | reflexivity
    | exact demo_valid_timesteps].
Defined.

(** [sampling_loop_iterations] on the demo world: four iterations, at
    timesteps 3, 2, 1, 0. *)
Lemma sampling_loop_iterations_witness :
  num_train_timesteps (noise_scheduler demo_world) = Z.of_nat 4
  /\ full_descending_range (noise_scheduler demo_world)
  /\ @model_keeps_shape demo_setting
  /\ step_contract (noise_scheduler demo_world)
  /\ exists (x : nat -> Tensor) (g : nat -> Generator),
       (forall i, (i < 4)%nat ->
          exists r,
            step (noise_scheduler demo_world)
                 (model (params demo_world) (x i) (Scalar (Z.of_nat (4 - 1 - i))))
                 (Z.of_nat (4 - 1 - i)) (x i) (g i)
            = Ok (r, g (S i))
            /\ x (S i) = prev_sample r)
       /\ fst (sampling_loop demo_world) = Ok (x 4%nat)
       /\ shape (x 4%nat) = [8; 3; 32; 32]%nat.
Proof.
  split; [reflexivity|]. split; [apply ddpm_full_descending_range|].
  split; [exact scale_model_keeps_shape|]. split; [apply ddpm_step_contract|].
  destruct (sampling_loop_iterations (C := demo_setting) demo_world 4 eq_refl
              (ddpm_full_descending_range _ _ _ _ demo_config)
              scale_model_keeps_shape
              (ddpm_step_contract _ _ _ _ (DDPM.precompute demo_config)))
    as (_ & _ & _ & x & g & _ & _ & H3 & H4 & H5).
  exists x, g. split; [exact H3|]. split; [exact H4 | exact H5].
Defined.

Lemma demo_timesteps_positive :
  (0 < num_train_timesteps (noise_scheduler demo_world))%Z.
Proof. simpl. lia. Qed.

(** [train_step_contract] on the demo world and batch. *)
Lemma train_step_contract_witness :
  shape demo_batch = [2; 2]%nat
  /\ (0 < num_train_timesteps (noise_scheduler demo_world))%Z
  /\ @model_keeps_shape demo_setting
  /\ add_noise_contract (noise_scheduler demo_world)
  /\ exists (noise : Tensor) (timesteps : list Z) (noisy_images : Tensor)
            (loss : R) (w' : World),
       shape noise = shape demo_batch
       /\ length timesteps = 2%nat
       /\ Forall (fun t => (0 <= t <= 3)%Z) timesteps
       /\ add_noise (noise_scheduler demo_world) demo_batch noise timesteps
          = Ok noisy_images
       /\ mse_loss (model (params demo_world) noisy_images (Batch timesteps)) noise
          = Ok loss
       /\ train_step demo_batch demo_world = (Ok tt, w')
       /\ losses w' = losses demo_world ++ [loss].
Proof.
  split; [reflexivity|]. split; [exact demo_timesteps_positive|].
  split; [exact scale_model_keeps_shape|]. split; [apply ddpm_add_noise_contract|].
  destruct (train_step_contract (C := demo_setting) demo_world demo_batch 2 [2%nat]
              eq_refl demo_timesteps_positive scale_model_keeps_shape
              (ddpm_add_noise_contract _ _ _ _ (DDPM.precompute demo_config)))
    as (noise & g1 & ts & g2 & noisy & loss & w' & _ & H2 & _ & H4 & H5 & _ & _ & H6 & H7 & _ & H9 & H10).
  exists noise, ts, noisy, loss, w'.
  repeat (split; [assumption|]). assumption.
Defined.

(** [schedule_invariants] at the reference configuration. *)
Lemma schedule_invariants_witness :
  DDPM.DDPMScheduler DDPM.default_config = Ok (DDPM.precompute DDPM.default_config)
  /\ (forall t, valid_timestep (DDPM.precompute DDPM.default_config) t ->
        0 < DDPM.beta (DDPM.precompute DDPM.default_config) t < 1
        /\ 0 < DDPM.alpha_bar (DDPM.precompute DDPM.default_config) t < 1)
  /\ DDPM.alpha_bar (DDPM.precompute DDPM.default_config) 0 = 0.9999
  /\ 0.0000403 < DDPM.alpha_bar (DDPM.precompute DDPM.default_config) 999 < 0.0000404.
Proof.
  assert (E : DDPM.DDPMScheduler DDPM.default_config
              = Ok (DDPM.precompute DDPM.default_config)).
  { unfold DDPM.DDPMScheduler. now rewrite default_config_valid. }
  split; [exact E|].
  destruct (schedule_invariants DDPM.default_config _ E) as (H1 & _ & _ & H4 & _).
  split.
  - intros t Ht. destruct (H1 t Ht) as (A & _ & B). split; assumption.
  - exact (H4 eq_refl).
Defined.

(** [step_noise] on the demo scheduler, at timestep 0. *)
Lemma step_noise_witness :
  valid_timestep (DDPM.precompute demo_config) 0
  /\ shape demo_noise = shape demo_batch
  /\ (forall g', exists r,
        DDPM.step (DDPM.precompute demo_config) demo_noise 0 demo_batch g' = Ok (r, g')
        /\ prev_sample r
           = mkTensor (shape demo_batch)
               (DDPM.posterior_mean (DDPM.precompute demo_config) 0
                  (DDPM.predict_x0 (DDPM.precompute demo_config) 0
                     (data demo_noise) (data demo_batch))
                  (data demo_batch)))
  /\ DDPM.posterior_variance (DDPM.precompute demo_config) 0 = 0.
Proof.
  assert (V : valid_timestep (DDPM.precompute demo_config) 0)
    by (unfold valid_timestep; simpl; lia).
  split; [exact V|]. split; [reflexivity|].
  exact (proj2 (step_noise (DDPM.precompute demo_config) demo_noise demo_batch 0
                  demo_generator V eq_refl) eq_refl).
Defined.

(** [out_of_range_timestep_fails] on the demo scheduler, whose timesteps
    are 0 to 3, at timestep 4. *)
Lemma out_of_range_timestep_fails_witness :
  (4 < 0 \/ DDPM.num_train_timesteps (DDPM.precompute demo_config) <= 4)%Z
  /\ DDPM.step (DDPM.precompute demo_config) demo_noise 4 demo_batch demo_generator
     = Err OutOfRangeTimestep
  /\ DDPM.add_noise (DDPM.precompute demo_config) demo_batch demo_noise [0%Z; 4%Z]
     = Err OutOfRangeTimestep.
Proof.
  assert (H : (4 < 0 \/ DDPM.num_train_timesteps (DDPM.precompute demo_config) <= 4)%Z)
    by (right; simpl; lia).
  split; [exact H|].
  destruct (out_of_range_timestep_fails (DDPM.precompute demo_config) 4 H)
    as (H1 & H2 & _).
  split; [apply H1 | apply H2; simpl; auto].
Defined.

(** [sampling_loop_reproducible] on two states of the all-zero network
    that share the random state and differ in parameters, gradients and
    loss logs. *)
Lemma sampling_loop_reproducible_witness :
  same_randomness zero_world zero_world_later
  /\ (forall x t, @model zero_setting (params zero_world) x (Scalar t) = zeros (shape x))
  /\ (forall x t, @model zero_setting (params zero_world_later) x (Scalar t) = zeros (shape x))
  /\ fst (sampling_loop zero_world) = fst (sampling_loop zero_world_later)
  /\ cpu_generator (snd (sampling_loop zero_world))
     = cpu_generator (snd (sampling_loop zero_world_later)).
Proof.
  assert (HR : same_randomness zero_world zero_world_later) by (repeat split).
  assert (Z1 : forall x t, @model zero_setting (params zero_world) x (Scalar t)
                           = zeros (shape x)) by reflexivity.
  assert (Z2 : forall x t, @model zero_setting (params zero_world_later) x (Scalar t)
                           = zeros (shape x)) by reflexivity.
  split; [exact HR|]. split; [exact Z1|]. split; [exact Z2|].
  destruct (sampling_loop_reproducible (C := zero_setting) zero_world zero_world_later HR
              (or_intror (conj Z1 Z2))) as (H1 & H2 & _).
  split; assumption.
Defined.

(** [train_step_effects] on the demo world and batch. *)
Lemma train_step_effects_witness :
  shape demo_batch = [2; 2]%nat
  /\ (0 < num_train_timesteps (noise_scheduler demo_world))%Z
  /\ @model_keeps_shape demo_setting
  /\ add_noise_contract (noise_scheduler demo_world)
  /\ exists (loss : R) (w' : World),
       train_step demo_batch demo_world = (Ok tt, w')
       /\ losses w' = [loss]
       /\ noise_scheduler w' = noise_scheduler demo_world
       /\ cpu_generator w' = advance 2 (advance 4 demo_generator)
       /\ cuda_generator w' = demo_generator.
Proof.
  split; [reflexivity|]. split; [exact demo_timesteps_positive|].
  split; [exact scale_model_keeps_shape|]. split; [apply ddpm_add_noise_contract|].
  destruct (train_step_effects (C := demo_setting) demo_world demo_batch 2 [2%nat]
              eq_refl demo_timesteps_positive scale_model_keeps_shape
              (ddpm_add_noise_contract _ _ _ _ (DDPM.precompute demo_config)))
    as (loss & w' & H1 & H2 & _ & H4 & _ & H6 & H7).
  exists loss, w'. repeat (split; [assumption|]). assumption.
Defined.

(** The claim C8 states fails on the demo world and batch: the training
    iteration runs to completion and leaves torch's CPU generator in
    another state than it found it. *)
Lemma train_step_advances_generator :
  exists w', train_step demo_batch demo_world = (Ok tt, w')
             /\ cpu_generator w' <> cpu_generator demo_world.
Proof.
  destruct (train_step_run (C := demo_setting) demo_world demo_batch 2 [2%nat]
              eq_refl demo_timesteps_positive scale_model_keeps_shape
              (ddpm_add_noise_contract _ _ _ _ (DDPM.precompute demo_config)))
    as (ts & noisy & loss & _ & _ & _ & _ & _ & _ & H7).
  eexists. split; [exact H7|].
  destruct (after_train_step_generators demo_world demo_batch 2 ts noisy loss) as [E _].
  rewrite E. intros F. apply (f_equal offset) in F. simpl in F. discriminate.
Qed.

(** [backward_seeded_with_loss] on the demo world and batch. *)
Lemma backward_seeded_with_loss_witness :
  shape demo_batch = [2; 2]%nat
  /\ (0 < num_train_timesteps (noise_scheduler demo_world))%Z
  /\ @model_keeps_shape demo_setting
  /\ add_noise_contract (noise_scheduler demo_world)
  /\ @autograd_sound demo_setting
  /\ grads demo_world = None
  /\ exists (noise noisy_images : Tensor) (timesteps : list Z) (loss : R) (w' : World),
       train_step demo_batch demo_world = (Ok tt, w')
       /\ loss = loss_of noisy_images (Batch timesteps) noise (params demo_world)
       /\ (optimizer w', params w')
          = optimizer_step (optimizer demo_world) (params demo_world)
              (Some (map (Rmult loss)
                         (mse_grad (params demo_world) noisy_images (Batch timesteps) noise)))
       /\ derivable_pt_lim
            (fun v =>
               loss_of noisy_images (Batch timesteps) noise (set_nth 0 v (params demo_world))
               * loss_of noisy_images (Batch timesteps) noise (set_nth 0 v (params demo_world))
               / 2)
            (nth 0 (params demo_world) 0)
            (nth 0 (map (Rmult loss)
                        (mse_grad (params demo_world) noisy_images (Batch timesteps) noise)) 0)
       /\ grads w' = None.
Proof.
  split; [reflexivity|]. split; [exact demo_timesteps_positive|].
  split; [exact scale_model_keeps_shape|]. split; [apply ddpm_add_noise_contract|].
  split; [exact scale_model_autograd_sound|]. split; [reflexivity|].
  destruct (backward_seeded_with_loss (C := demo_setting) demo_world demo_batch 2 [2%nat]
              eq_refl demo_timesteps_positive scale_model_keeps_shape
              (ddpm_add_noise_contract _ _ _ _ (DDPM.precompute demo_config))
              scale_model_autograd_sound eq_refl)
    as (noise & noisy & ts & loss & w' & H1 & _ & _ & _ & H5 & H6 & H7 & H8).
  exists noise, noisy, ts, loss, w'.
  split; [exact H1|]. split; [exact H5|]. split; [exact H6|].
  split; [|exact H8].
  exact (proj2 (proj2 (H7 0%nat (Nat.lt_0_succ 0)))).
Defined.

(* ================================================================== *)
(** * Further properties of the notebook's code *)

(** ** Training iterations that fail, epochs and their report *)

Section TrainingOutcomes.
Context {C : Collaborators}.




(** An epoch over batches that all have a batch dimension appends one loss
    per batch to the log, behind what the log held. *)
Lemma train_epoch_appends (batches : list Tensor) (w : World) :
  Forall (fun b => exists bs rest, shape b = bs :: rest) batches ->
  (0 < num_train_timesteps (noise_scheduler w))%Z ->
  model_keeps_shape -> add_noise_contract (noise_scheduler w) ->
  exists new w', train_epoch batches w = (Ok tt, w')
                 /\ losses w' = losses w ++ new
                 /\ length new = length batches
                 /\ noise_scheduler w' = noise_scheduler w.
Proof.
  intros HB HT HM. revert w HT.
  induction HB as [|b batches (bs & rest & Hsh) _ IH]; intros w HT HA.
  - exists [], w. simpl. rewrite app_nil_r. repeat split.
  - destruct (train_step_run w b bs rest Hsh HT HM HA)
      as (ts & noisy & loss & _ & _ & _ & _ & _ & _ & H7).
    set (w1 := after_train_step w b bs ts noisy loss) in *.
    assert (Hs : noise_scheduler w1 = noise_scheduler w) by reflexivity.
    assert (Hl : losses w1 = losses w ++ [loss]) by reflexivity.
    destruct (IH w1) as (new & w' & Hrun & Hnew & Hlen & Hsched).
    + now rewrite Hs.
    + now rewrite Hs.
    + exists (loss :: new), w'. simpl. unfold bind. rewrite H7.
      split; [exact Hrun|]. split; [|split; [now rewrite Hlen | congruence]].
      rewrite Hnew, Hl, <- app_assoc. reflexivity.
Qed.

Lemma last_slice_app {A : Type} (old new : list A) :
  (0 < length new)%nat -> last_slice (length new) (old ++ new) = new.
Proof.
  intros H. unfold last_slice.
  destruct (Nat.eqb_spec (length new) 0); [lia|].
  rewrite length_app.
  replace (length old + length new - length new)%nat with (length old) by lia.
  rewrite skipn_app, skipn_all, Nat.sub_diag. reflexivity.
Qed.

Lemma training_epochs_run (n_batches : nat) (epochs : list (list Tensor)) :
  (0 < n_batches)%nat ->
  model_keeps_shape ->
  Forall (fun batches => length batches = n_batches
                         /\ Forall (fun b => exists bs rest, shape b = bs :: rest) batches)
         epochs ->
  forall (epoch : nat) (out : list (nat * R)) (w : World),
    (0 < num_train_timesteps (noise_scheduler w))%Z ->
    add_noise_contract (noise_scheduler w) ->
    exists (chunks : list (list R)) (w' : World),
      length chunks = length epochs
      /\ Forall (fun chunk => length chunk = n_batches) chunks
      /\ losses w' = losses w ++ concat chunks
      /\ training_epochs n_batches epoch epochs out w
         = (Ok tt, out ++ reports n_batches epoch chunks, w').
Proof.
  intros Hn HM HE. induction HE as [|batches epochs (Hlen & HB) _ IH];
    intros epoch out w HT HA.
  - exists [], w. simpl. rewrite !app_nil_r. repeat split. constructor.
  - destruct (train_epoch_appends batches w HB HT HM HA)
      as (new & w1 & Hrun & Hnew & Hnlen & Hs).
    assert (HT1 : (0 < num_train_timesteps (noise_scheduler w1))%Z) by now rewrite Hs.
    assert (HA1 : add_noise_contract (noise_scheduler w1)) by now rewrite Hs.
    assert (Hrep : loss_last_epoch n_batches (losses w1)
                   = Ok (sum_list new / INR n_batches)).
    { unfold loss_last_epoch. destruct (Nat.eqb_spec n_batches 0); [lia|].
      rewrite Hnew. rewrite <- Hlen, <- Hnlen at 1.
      rewrite last_slice_app by lia. reflexivity. }
    cbn [training_epochs]. rewrite Hrun.
    destruct ((epoch + 1) mod 5 =? 0)%nat eqn:E.
    + rewrite Hrep.
      destruct (IH (S epoch) (out ++ [((epoch + 1)%nat, sum_list new / INR n_batches)])
                   w1 HT1 HA1) as (chunks & w' & H1 & H2 & H3 & H4).
      exists (new :: chunks), w'. cbn [reports length concat]. rewrite E.
      split; [now rewrite H1|]. split; [constructor; [lia | exact H2]|].
      split; [rewrite H3, Hnew, <- app_assoc; reflexivity|].
      rewrite H4, <- !app_assoc. reflexivity.
    + destruct (IH (S epoch) out w1 HT1 HA1) as (chunks & w' & H1 & H2 & H3 & H4).
      exists (new :: chunks), w'. cbn [reports length concat]. rewrite E.
      split; [now rewrite H1|]. split; [constructor; [lia | exact H2]|].
      split; [rewrite H3, Hnew, <- app_assoc; reflexivity|].
      rewrite H4. reflexivity.
Qed.

Lemma reports_epochs (n_batches : nat) (chunks : list (list R)) (epoch : nat) :
  map fst (reports n_batches epoch chunks)
  = filter (fun k => k mod 5 =? 0)%nat (seq (epoch + 1) (length chunks)).
Proof.
  revert epoch. induction chunks as [|chunk chunks IH]; intros epoch; [reflexivity|].
  cbn [reports length seq filter]. rewrite map_app, IH.
  replace (S epoch + 1)%nat with (S (epoch + 1)) by lia.
  destruct ((epoch + 1) mod 5 =? 0)%nat; reflexivity.
Qed.

(** The training cell's loop over epochs whose batches all have a batch
    dimension, with as many batches per epoch as [len(train_dataloader)]
    says: the loop completes; the log grows by one chunk of
    [len(train_dataloader)] losses per epoch; a line is printed for exactly
    the epochs 5, 10, 15, ...; and the loss a line shows is the mean of the
    losses of that very epoch, whatever the log held before. *)
Theorem training_epochs_reports (n_batches : nat) (epochs : list (list Tensor))
    (w : World) :
  (0 < n_batches)%nat ->
  model_keeps_shape ->
  Forall (fun batches => length batches = n_batches
                         /\ Forall (fun b => exists bs rest, shape b = bs :: rest) batches)
         epochs ->
  (0 < num_train_timesteps (noise_scheduler w))%Z ->
  add_noise_contract (noise_scheduler w) ->
  exists (chunks : list (list R)) (out : list (nat * R)) (w' : World),
    training_epochs n_batches 0 epochs [] w = (Ok tt, out, w')
    /\ length chunks = length epochs
    /\ Forall (fun chunk => length chunk = n_batches) chunks
    /\ losses w' = losses w ++ concat chunks
    /\ map fst out = filter (fun k => k mod 5 =? 0)%nat (seq 1 (length epochs))
    /\ (forall k l, In (k, l) out ->
          (1 <= k <= length epochs)%nat
          /\ l = sum_list (nth (k - 1) chunks []) / INR n_batches).
Proof.
  intros Hn HM HE HT HA.
  destruct (training_epochs_run n_batches epochs Hn HM HE 0 [] w HT HA)
    as (chunks & w' & H1 & H2 & H3 & H4).
  exists chunks, (reports n_batches 0 chunks), w'.
  split; [exact H4|]. split; [exact H1|]. split; [exact H2|]. split; [exact H3|].
  split; [rewrite reports_epochs, H1; reflexivity|].
  rewrite <- H1. clear.
  assert (G : forall epoch k l, In (k, l) (reports n_batches epoch chunks) ->
              (epoch + 1 <= k <= epoch + length chunks)%nat
              /\ l = sum_list (nth (k - 1 - epoch) chunks []) / INR n_batches).
  { induction chunks as [|chunk chunks IH]; intros epoch k l Hin;
      cbn [reports] in Hin; [destruct Hin|].
    apply in_app_or in Hin as [Hin|Hin].
    - destruct ((epoch + 1) mod 5 =? 0)%nat; [|destruct Hin].
      destruct Hin as [Hin|[]]. inversion Hin; subst. cbn [length].
      split; [lia|]. replace (epoch + 1 - 1 - epoch)%nat with 0%nat by lia. reflexivity.
    - destruct (IH (S epoch) k l Hin) as [Hk Hl]. cbn [length]. split; [lia|].
      rewrite Hl. replace (k - 1 - epoch)%nat with (S (k - 1 - S epoch)) by lia.
      reflexivity. }
  intros k l Hin. destruct (G 0%nat k l Hin) as [Hk Hl].
  split; [lia|]. rewrite Hl. now rewrite Nat.sub_0_r.
Qed.


End TrainingOutcomes.

(** ** The cell that simulates adding noise *)


Lemma long_nonneg (x : R) : 0 <= x -> long x = Int_part x.
Proof. intros H. unfold long. destruct (Rle_dec 0 x); [reflexivity | contradiction]. Qed.



Section NoiseSimulationProperties.
Context {C : Collaborators}.


End NoiseSimulationProperties.

(** ** [show_images] and the tail of [preprocess] *)

Lemma nth_map_in {A B : Type} (f : A -> B) (l : list A) (k : nat) (d : A) (d' : B) :
  (k < length l)%nat -> nth k (map f l) d' = f (nth k l d).
Proof.
  intros H. rewrite (nth_indep _ d' (f d)) by (rewrite length_map; exact H).
  apply map_nth.
Qed.

Lemma div_mod_block (n a b : nat) :
  (a < n)%nat -> ((b * n + a) / n = b /\ (b * n + a) mod n = a)%nat.
Proof.
  intros H. split.
  - rewrite Nat.div_add_l by lia. rewrite Nat.div_small by exact H. lia.
  - rewrite Nat.add_comm, Nat.Div0.mod_add. now apply Nat.mod_small.
Qed.


(** The (C, H, W) index of a coordinate triple splits back into the
    triple. *)
Lemma chw_split (h w c i j k : nat) :
  (i < h)%nat -> (j < w)%nat -> (k < c)%nat ->
  (k * (h * w) + i * w + j < c * h * w
   /\ (k * (h * w) + i * w + j) / (h * w) = k
   /\ ((k * (h * w) + i * w + j) / w) mod h = i
   /\ (k * (h * w) + i * w + j) mod w = j)%nat.
Proof.
  intros Hi Hj Hk.
  assert (Hij : (i * w + j < h * w)%nat) by nia.
  split; [nia|]. split.
  - rewrite <- Nat.add_assoc. now apply div_mod_block.
  - replace (k * (h * w) + i * w + j)%nat with ((k * h + i) * w + j)%nat by lia.
    destruct (div_mod_block w j (k * h + i) Hj) as [-> ->].
    split; [|reflexivity]. now apply div_mod_block.
Qed.

Lemma hwc_index_bound (h w c i j k : nat) :
  (i < h)%nat -> (j < w)%nat -> (k < c)%nat ->
  (i * (w * c) + j * c + k < h * w * c)%nat.
Proof.
  intros Hi Hj Hk.
  assert (j * c + c <= w * c)%nat by nia.
  assert (i * (w * c) + w * c <= h * (w * c))%nat by nia.
  lia.
Qed.

Lemma Int_part_byte (x : R) : 0 <= x <= 255 -> (0 <= Int_part x <= 255)%Z.
Proof.
  intros [H0 H1]. destruct (base_Int_part x) as [B1 B2]. split.
  - assert (-1 < IZR (Int_part x)) by lra.
    apply lt_IZR in H. lia.
  - apply le_IZR. lra.
Qed.

Lemma clip_unit (v : R) : 0 <= clip 0 1 v <= 1.
Proof.
  unfold clip, Rmin, Rmax.
  destruct (Rle_dec v 0); destruct (Rle_dec _ 1); lra.
Qed.


(** After the clip the conversion to uint8 never wraps. *)
Lemma astype_uint8_clipped (v : R) :
  astype_uint8 (clip 0 1 v * 255) = Int_part (clip 0 1 v * 255)
  /\ (0 <= astype_uint8 (clip 0 1 v * 255) <= 255)%Z.
Proof.
  pose proof (clip_unit v) as Hc.
  assert (H : 0 <= clip 0 1 v * 255 <= 255) by lra.
  unfold astype_uint8. rewrite long_nonneg by lra.
  pose proof (Int_part_byte _ H) as B.
  rewrite Z.mod_small by lia. split; [reflexivity | lia].
Qed.

Lemma permute_1_2_0_run (x : Tensor) (c h w : nat) :
  shape x = [c; h; w] ->
  permute_1_2_0 x
  = Ok (mkTensor [h; w; c]
          (map (fun k => nth ((k mod c) * (h * w) + (k / (w * c)) * w + (k / c) mod w)
                             (data x) 0)
               (seq 0 (h * w * c)))).
Proof. intros H. unfold permute_1_2_0. now rewrite H. Qed.

Lemma show_images_run (torchvision_make_grid : Tensor -> Tensor) (x : Tensor)
    (c h w : nat) :
  shape (torchvision_make_grid (tensor_map (fun v => v * 0.5 + 0.5) x)) = [c; h; w] ->
  show_images torchvision_make_grid x
  = Ok (mkByteImage h w c
          (map astype_uint8
             (map (fun v => clip 0 1 v * 255)
                (map (fun k => nth ((k mod c) * (h * w) + (k / (w * c)) * w + (k / c) mod w)
                                   (data (torchvision_make_grid
                                            (tensor_map (fun v => v * 0.5 + 0.5) x))) 0)
                     (seq 0 (h * w * c)))))).
Proof.
  intros Hsh. unfold show_images.
  rewrite (permute_1_2_0_run _ c h w Hsh). reflexivity.
Qed.

(** Entry (i, j, k) of the permuted array is entry (k, i, j) of the
    tensor. *)
Lemma permuted_nth (d : list R) (c h w i j k : nat) :
  (i < h)%nat -> (j < w)%nat -> (k < c)%nat ->
  nth (i * (w * c) + j * c + k)
      (map (fun k0 => nth ((k0 mod c) * (h * w) + (k0 / (w * c)) * w + (k0 / c) mod w) d 0)
           (seq 0 (h * w * c))) 0
  = nth (k * (h * w) + i * w + j) d 0.
Proof.
  intros Hi Hj Hk.
  rewrite (nth_map_seq (fun k0 => nth ((k0 mod c) * (h * w) + (k0 / (w * c)) * w
                                       + (k0 / c) mod w) d 0))
    by now apply hwc_index_bound.
  replace ((i * (w * c) + j * c + k) mod c)%nat with k.
  2:{ replace (i * (w * c) + j * c + k)%nat with ((i * w + j) * c + k)%nat by lia.
      symmetry. now apply div_mod_block. }
  replace ((i * (w * c) + j * c + k) / (w * c))%nat with i.
  2:{ rewrite <- Nat.add_assoc. symmetry. apply div_mod_block.
      assert (j * c + c <= w * c)%nat by nia. lia. }
  replace (((i * (w * c) + j * c + k) / c) mod w)%nat with j.
  2:{ replace (i * (w * c) + j * c + k)%nat with ((i * w + j) * c + k)%nat by lia.
      destruct (div_mod_block c k (i * w + j) Hk) as [-> _].
      symmetry. now apply div_mod_block. }
  reflexivity.
Qed.

(** [show_images] on a batch that torchvision's [make_grid] lays out as a
    (C, H, W) tensor returns an (H, W, C) array of H * W * C bytes; every
    byte lies in 0..255 whatever the values of the batch are, since the clip
    keeps the conversion to uint8 from wrapping; and the byte of row [i],
    column [j], channel [k] is the integer part of 255 times the clipped
    element (k, i, j) of the grid. *)
Theorem show_images_array (torchvision_make_grid : Tensor -> Tensor) (x : Tensor)
    (c h w : nat) :
  shape (torchvision_make_grid (tensor_map (fun v => v * 0.5 + 0.5) x)) = [c; h; w] ->
  exists im,
    show_images torchvision_make_grid x = Ok im
    /\ img_height im = h /\ img_width im = w /\ img_channels im = c
    /\ length (img_bytes im) = (h * w * c)%nat
    /\ Forall (fun b => (0 <= b <= 255)%Z) (img_bytes im)
    /\ forall i j k, (i < h)%nat -> (j < w)%nat -> (k < c)%nat ->
         nth (i * (w * c) + j * c + k) (img_bytes im) 0%Z
         = Int_part
             (clip 0 1
                (nth (k * (h * w) + i * w + j)
                     (data (torchvision_make_grid (tensor_map (fun v => v * 0.5 + 0.5) x)))
                     0)
              * 255).
Proof.
  intros Hsh. rewrite (show_images_run _ x c h w Hsh).
  set (grid := torchvision_make_grid (tensor_map (fun v => v * 0.5 + 0.5) x)) in *.
  eexists. split; [reflexivity|]. cbn [img_height img_width img_channels img_bytes].
  split; [reflexivity|]. split; [reflexivity|]. split; [reflexivity|].
  split; [now rewrite !length_map, length_seq|]. split.
  - apply Forall_forall. intros b Hb.
    apply in_map_iff in Hb as (v & <- & Hv).
    apply in_map_iff in Hv as (u & <- & _).
    apply astype_uint8_clipped.
  - intros i j k Hi Hj Hk.
    assert (HK : (i * (w * c) + j * c + k < h * w * c)%nat) by now apply hwc_index_bound.
    rewrite (nth_map_in _ _ _ 0) by (now rewrite !length_map, length_seq).
    rewrite (nth_map_in _ _ _ 0) by (now rewrite !length_map, length_seq).
    rewrite permuted_nth by assumption.
    apply astype_uint8_clipped.
Qed.

Lemma nth_bytes_range (bytes : list Z) (k : nat) :
  Forall (fun b => (0 <= b <= 255)%Z) bytes -> (0 <= nth k bytes 0 <= 255)%Z.
Proof.
  intros H. destruct (nth_in_or_default k bytes 0%Z) as [Hin| ->]; [|lia].
  rewrite Forall_forall in H. now apply H.
Qed.

Lemma half_constants (k : nat) : (k < 3)%nat -> nth k [0.5; 0.5; 0.5] 0 = 0.5.
Proof. intros H. destruct k as [|[|[|k]]]; simpl; try reflexivity; lia. Qed.

Lemma preprocess_tail_run (im : ByteImage) :
  img_channels im = 3%nat ->
  preprocess_tail im
  = Ok (mkTensor [3%nat; img_height im; img_width im]
          (map (fun k => (nth k (data (to_tensor im)) 0
                          - nth (k / (img_height im * img_width im)) [0.5; 0.5; 0.5] 0)
                         / nth (k / (img_height im * img_width im)) [0.5; 0.5; 0.5] 0)
               (seq 0 (3 * img_height im * img_width im)))).
Proof.
  intros Hc. unfold preprocess_tail, normalize, to_tensor. cbn [shape data].
  rewrite Hc. reflexivity.
Qed.

(** Element (k, i, j) of the preprocessed tensor, from byte (i, j, k) of
    the image. *)
Lemma preprocess_tail_nth (im : ByteImage) (i j k : nat) :
  img_channels im = 3%nat ->
  (i < img_height im)%nat -> (j < img_width im)%nat -> (k < 3)%nat ->
  nth (k * (img_height im * img_width im) + i * img_width im + j)
      (map (fun k => (nth k (data (to_tensor im)) 0
                      - nth (k / (img_height im * img_width im)) [0.5; 0.5; 0.5] 0)
                     / nth (k / (img_height im * img_width im)) [0.5; 0.5; 0.5] 0)
           (seq 0 (3 * img_height im * img_width im))) 0
  = (IZR (nth (i * (img_width im * 3) + j * 3 + k) (img_bytes im) 0%Z) / 255 - 0.5) / 0.5.
Proof.
  intros Hc Hi Hj Hk.
  destruct (chw_split (img_height im) (img_width im) 3 i j k Hi Hj Hk)
    as (Hlt & Hch & Hrow & Hcol).
  set (K := (k * (img_height im * img_width im) + i * img_width im + j)%nat) in *.
  rewrite (nth_map_seq
             (fun k => (nth k (data (to_tensor im)) 0
                        - nth (k / (img_height im * img_width im)) [0.5; 0.5; 0.5] 0)
                       / nth (k / (img_height im * img_width im)) [0.5; 0.5; 0.5] 0))
    by exact Hlt.
  rewrite Hch, half_constants by exact Hk.
  unfold to_tensor. cbn [data]. rewrite Hc.
  rewrite (nth_map_seq
             (fun k => IZR (nth (((k / img_width im) mod img_height im) * (img_width im * 3)
                                 + (k mod img_width im) * 3
                                 + k / (img_height im * img_width im))
                                (img_bytes im) 0%Z) / 255)) by exact Hlt.
  now rewrite Hch, Hrow, Hcol.
Qed.

(** The tail of [preprocess] on an RGB byte image: a (3, H, W) tensor whose
    element (k, i, j) is (byte (i, j, k) / 255 - 0.5) / 0.5, so that every
    element lies in [-1, 1], 0 going to -1 and 255 to 1. *)
Theorem preprocess_tail_range (im : ByteImage) :
  img_channels im = 3%nat -> byte_image_wf im ->
  exists t,
    preprocess_tail im = Ok t
    /\ shape t = [3%nat; img_height im; img_width im]
    /\ wf t
    /\ (forall i j k, (i < img_height im)%nat -> (j < img_width im)%nat -> (k < 3)%nat ->
          nth (k * (img_height im * img_width im) + i * img_width im + j) (data t) 0
          = (IZR (nth (i * (img_width im * 3) + j * 3 + k) (img_bytes im) 0%Z) / 255 - 0.5)
            / 0.5)
    /\ Forall (fun v => -1 <= v <= 1) (data t).
Proof.
  intros Hc [Hlen Hbytes]. rewrite (preprocess_tail_run im Hc).
  eexists. split; [reflexivity|]. cbn [shape data].
  split; [reflexivity|]. split.
  { unfold wf. cbn [shape data numel fold_right].
    rewrite length_map, length_seq. lia. }
  split; [intros i j k; now apply preprocess_tail_nth|].
  apply Forall_forall. intros v Hv. apply in_map_iff in Hv as (K & <- & HK).
  apply in_seq in HK.
  assert (Hch : (K / (img_height im * img_width im) < 3)%nat)
    by (apply Nat.Div0.div_lt_upper_bound; lia).
  rewrite half_constants by exact Hch.
  unfold to_tensor. cbn [data].
  rewrite (nth_map_seq
             (fun k => IZR (nth (((k / img_width im) mod img_height im)
                                 * (img_width im * img_channels im)
                                 + (k mod img_width im) * img_channels im
                                 + k / (img_height im * img_width im))
                                (img_bytes im) 0%Z) / 255)) by (rewrite Hc; lia).
  match goal with |- context [IZR (nth ?n (img_bytes im) 0%Z)] =>
    pose proof (nth_bytes_range (img_bytes im) n Hbytes) as [B0 B1] end.
  apply IZR_le in B0, B1. lra.
Qed.



(* ------------------------------------------------------------------ *)
(** ** [make_grid] *)

Lemma paste_all_size (resize : Picture -> nat -> nat -> Picture) (size : nat)
    (images : list Picture) :
  forall i out,
    pic_width (paste_all resize size i images out) = pic_width out
    /\ pic_height (paste_all resize size i images out) = pic_height out.
Proof.
  induction images as [|im rest IH]; intros i out; cbn [paste_all]; [now split|].
  destruct (IH (S i) (paste out (resize im size size) (i * size) 0)) as [-> ->].
  now split.
Qed.

(** Pasting from index [i] on leaves the columns left of [i * size]. *)
Lemma paste_all_left (resize : Picture -> nat -> nat -> Picture) (size : nat)
    (images : list Picture) :
  forall i out x y,
    (x < i * size)%nat ->
    pic_pixel (paste_all resize size i images out) x y = pic_pixel out x y.
Proof.
  induction images as [|im rest IH]; intros i out x y Hx; cbn [paste_all]; [reflexivity|].
  rewrite IH by (cbn [Nat.mul]; lia).
  unfold paste. cbn [pic_pixel].
  destruct (i * size <=? x)%nat eqn:E; [apply Nat.leb_le in E; lia|reflexivity].
Qed.

Lemma paste_all_pixel (resize : Picture -> nat -> nat -> Picture) (size : nat)
    (images : list Picture) :
  resize_contract resize ->
  forall i i0 out im x y,
    nth_error images i = Some im ->
    (x < size)%nat -> (y < size)%nat ->
    ((i0 + i) * size + x < pic_width out)%nat -> (y < pic_height out)%nat ->
    pic_pixel (paste_all resize size i0 images out) ((i0 + i) * size + x) y
    = pic_pixel (resize im size size) x y.
Proof.
  intros Hres. induction images as [|im0 rest IH]; intros i i0 out im x y Him Hx Hy Hw Hh.
  - now destruct i.
  - cbn [paste_all]. destruct i as [|i]; cbn [nth_error] in Him.
    + injection Him as ->. rewrite Nat.add_0_r in *.
      rewrite paste_all_left by (cbn [Nat.mul]; lia).
      unfold paste. cbn [pic_pixel].
      destruct (Hres im size size) as [-> ->].
      replace (i0 * size <=? i0 * size + x)%nat with true
        by (symmetry; apply Nat.leb_le; lia).
      replace (i0 * size + x <? i0 * size + size)%nat with true
        by (symmetry; apply Nat.ltb_lt; lia).
      replace (i0 * size + x <? pic_width out)%nat with true
        by (symmetry; apply Nat.ltb_lt; lia).
      replace (y <? 0 + size)%nat with true by (symmetry; apply Nat.ltb_lt; lia).
      replace (y <? pic_height out)%nat with true by (symmetry; apply Nat.ltb_lt; lia).
      cbn [Nat.leb andb].
      f_equal; lia.
    + replace (i0 + S i)%nat with (S i0 + i)%nat by lia.
      apply IH; try assumption; unfold paste; cbn [pic_width pic_height];
        try assumption.
      replace (S i0 + i)%nat with (i0 + S i)%nat by lia. assumption.
Qed.

(** [make_grid] lays the images out in one line: the result is
    size * len(images) wide and size high, and its tile number i is image i
    resized to size x size, whatever the sizes the images came in. *)
Theorem make_grid_tiles (resize : Picture -> nat -> nat -> Picture)
    (images : list Picture) (size : nat) :
  resize_contract resize ->
  pic_width (make_grid resize images size) = (size * length images)%nat
  /\ pic_height (make_grid resize images size) = size
  /\ (forall i im x y,
        nth_error images i = Some im -> (x < size)%nat -> (y < size)%nat ->
        pic_pixel (make_grid resize images size) (i * size + x) y
        = pic_pixel (resize im size size) x y).
Proof.
  intros Hres. unfold make_grid.
  destruct (paste_all_size resize size images 0
              (new_picture (size * length images) size)) as [-> ->].
  cbn [new_picture pic_width pic_height]. split; [reflexivity|]. split; [reflexivity|].
  intros i im x y Him Hx Hy.
  assert (Hi : (i < length images)%nat)
    by (apply nth_error_Some; rewrite Him; discriminate).
  apply (paste_all_pixel resize size images Hres i 0); try assumption;
    cbn [new_picture pic_width pic_height Nat.add]; try assumption.
  nia.
Qed.

(* ================================================================== *)
(** ** The further properties at the concrete setting *)




Lemma five_demo_epochs :
  Forall (fun batches => length batches = 1%nat
                         /\ Forall (fun b => exists bs rest, shape b = bs :: rest) batches)
         (repeat [demo_batch] 5).
Proof.
  apply Forall_forall. intros batches H. apply repeat_spec in H. subst batches.
  split; [reflexivity|]. constructor; [|constructor]. now exists 2%nat, [2%nat].
Qed.

(** [training_epochs_reports] on five epochs of one batch each: one line,
    for epoch 5, with the loss of the fifth iteration. *)
Lemma training_epochs_reports_witness :
  (0 < 1)%nat
  /\ @model_keeps_shape demo_setting
  /\ (0 < num_train_timesteps (noise_scheduler demo_world))%Z
  /\ add_noise_contract (noise_scheduler demo_world)
  /\ exists (chunks : list (list R)) (out : list (nat * R)) (w' : World),
       training_epochs 1 0 (repeat [demo_batch] 5) [] demo_world = (Ok tt, out, w')
       /\ length chunks = 5%nat
       /\ losses w' = losses demo_world ++ concat chunks
       /\ map fst out = [5%nat]
       /\ (forall k l, In (k, l) out ->
             l = sum_list (nth (k - 1) chunks []) / INR 1).
Proof.
  split; [exact Nat.lt_0_1|]. split; [exact scale_model_keeps_shape|].
  split; [exact demo_timesteps_positive|]. split; [apply ddpm_add_noise_contract|].
  destruct (training_epochs_reports (C := demo_setting) 1 (repeat [demo_batch] 5)
              demo_world Nat.lt_0_1 scale_model_keeps_shape five_demo_epochs
              demo_timesteps_positive
              (ddpm_add_noise_contract _ _ _ _ (DDPM.precompute demo_config)))
    as (chunks & out & w' & H1 & H2 & _ & H4 & H5 & H6).
  exists chunks, out, w'. split; [exact H1|]. split; [exact H2|].
  split; [exact H4|]. split; [exact H5|].
  intros k l Hin. exact (proj2 (H6 k l Hin)).
Defined.





(** [show_images_array] on a (3, 1, 2) batch that the grid hands on. *)
Lemma show_images_array_witness :
  shape (tensor_map (fun v => v * 0.5 + 0.5) demo_grid) = [3; 1; 2]%nat
  /\ exists im,
       show_images (fun g => g) demo_grid = Ok im
       /\ img_height im = 1%nat /\ img_width im = 2%nat /\ img_channels im = 3%nat
       /\ length (img_bytes im) = 6%nat
       /\ Forall (fun b => (0 <= b <= 255)%Z) (img_bytes im).
Proof.
  split; [reflexivity|].
  destruct (show_images_array (fun g => g) demo_grid 3 1 2 eq_refl)
    as (im & H1 & H2 & H3 & H4 & H5 & H6 & _).
  exists im. repeat (split; [assumption|]). assumption.
Defined.

Lemma demo_image_wf : byte_image_wf demo_image.
Proof. split; [reflexivity|]. repeat constructor; cbn; lia. Qed.

(** [preprocess_tail_range] on the demo image. *)
Lemma preprocess_tail_range_witness :
  img_channels demo_image = 3%nat
  /\ byte_image_wf demo_image
  /\ exists t,
       preprocess_tail demo_image = Ok t
       /\ shape t = [3; 1; 2]%nat
       /\ Forall (fun v => -1 <= v <= 1) (data t).
Proof.
  split; [reflexivity|]. split; [exact demo_image_wf|].
  destruct (preprocess_tail_range demo_image eq_refl demo_image_wf)
    as (t & H1 & H2 & _ & _ & H5).
  exists t. split; [exact H1|]. split; [exact H2 | exact H5].
Defined.


Lemma nearest_resize_contract : resize_contract nearest_resize.
Proof. intros im w h. split; reflexivity. Qed.

(** [make_grid_tiles] on two pictures of sizes 1 x 1 and 4 x 4, at size
    2. *)
Lemma make_grid_tiles_witness :
  resize_contract nearest_resize
  /\ pic_width (make_grid nearest_resize demo_pictures 2) = 4%nat
  /\ pic_height (make_grid nearest_resize demo_pictures 2) = 2%nat
  /\ (forall i im x y,
        nth_error demo_pictures i = Some im -> (x < 2)%nat -> (y < 2)%nat ->
        pic_pixel (make_grid nearest_resize demo_pictures 2) (i * 2 + x) y
        = pic_pixel (nearest_resize im 2 2) x y).
Proof.
  split; [exact nearest_resize_contract|].
  exact (make_grid_tiles nearest_resize demo_pictures 2 nearest_resize_contract).
Defined.
